(** * Preview: the PDF viewer's navigation/zoom core and its pinch translator

    A shallow embedding of [Preview/core.py] (class [PDFViewerCore]), of
    the handlers of [Preview/widget.py] (class [PDFContentWidget]) and of the
    methods of [Preview/main.py] (class [PDFViewerApp]) that drive the core.

    - Python [int] is [Z]; [len(...)] is a [nat].
    - Python [float] is IEEE-754 binary64, taken from the Standard Library's
      executable specification [SpecFloat] with [prec = 53], [emax = 1024]
      and round-to-nearest-even, which is what CPython's [+ - * /] compute.
    - Methods mutate [self]: they are functions from the object's state to
      the returned value and the new state.  A method of the core that can
      raise returns a [result]; the state is then the one before the call,
      since these methods raise before their first assignment.  The touch
      handler and the methods of the application call other objects in
      place and can raise after a change: they return the objects as they
      are left, together with the value returned or the exception raised.
    - PyMuPDF ([fitz]) and Qt are not part of the repository: they are the
      fields of the record [External]. *)

From Stdlib Require Import ZArith List String Bool Lia.
From Stdlib Require Import SpecFloat.
From Stdlib Require Import DecimalString.
Import ListNotations.

Local Open Scope Z_scope.

(** ** Python values *)

Module Py.

Inductive exn : Type :=
| ZeroDivisionError
| OverflowError
| Exception (msg : string).

Definition str_of_exn (e : exn) : string :=
  match e with
  | ZeroDivisionError => "float division by zero"
  | OverflowError => "(34, 'Numerical result out of range')"
  | Exception msg => msg
  end.

Inductive result (A : Type) : Type :=
| Ok (a : A)
| Raise (e : exn).

Arguments Ok {A} a.
Arguments Raise {A} e.

Definition bind {A B : Type} (r : result A) (k : A -> result B) : result B :=
  match r with
  | Ok a => k a
  | Raise e => Raise e
  end.

Notation "'do' x <- r ; k" := (bind r (fun x => k))
  (at level 10, x name, r at level 100, k at level 200).

(** [str(n)] for an [int]. *)
Definition str_of_int (n : Z) : string := NilZero.string_of_int (Z.to_int n).

(** *** Binary64 floats *)

Definition prec : Z := 53.
Definition emax : Z := 1024.

Definition float : Type := spec_float.

Definition fadd : float -> float -> float := SFadd prec emax.
Definition fsub : float -> float -> float := SFsub prec emax.
Definition fmul : float -> float -> float := SFmul prec emax.
Definition fdiv : float -> float -> float := SFdiv prec emax.
Definition fabs : float -> float := SFabs.
Definition fopp : float -> float := SFopp.
Definition fsqrt : float -> float := SFsqrt prec emax.
Definition flt : float -> float -> bool := SFltb.
Definition fle : float -> float -> bool := SFleb.
Definition feq : float -> float -> bool := SFeqb.
Definition fgt (a b : float) : bool := SFltb b a.

(** The floats a Python program can hold. *)
Definition valid (x : float) : bool := valid_binary prec emax x.

Definition is_zero (x : float) : bool :=
  match x with
  | S754_zero _ => true
  | _ => false
  end.

(** [a / b] on floats raises on a zero divisor. *)
Definition truediv (a b : float) : result float :=
  if is_zero b then Raise ZeroDivisionError else Ok (fdiv a b).

(** The built-ins [min(a, b)] and [max(a, b)]: the first argument is kept
    unless the second is strictly smaller (resp. strictly greater). *)
Definition min (a b : float) : float := if flt b a then b else a.
Definition max (a b : float) : float := if fgt b a then b else a.

(** An integer as a float, exact for [|n| < 2^53]. *)
Definition of_int (n : Z) : float := binary_normalize prec emax n 0 false.

(** The decimal literals of the two modules, as the nearest binary64. *)
Definition f0 : float := S754_zero false.
Definition f0_25 : float := S754_finite false 0x10000000000000 (-54).
Definition f0_05 : float := S754_finite false 0x1999999999999a (-57).
Definition f0_1 : float := S754_finite false 0x1999999999999a (-56).
Definition f0_5 : float := S754_finite false 0x10000000000000 (-53).
Definition f1_0 : float := S754_finite false 0x10000000000000 (-52).
Definition f1_1 : float := S754_finite false 0x1199999999999a (-52).
Definition f1_875 : float := S754_finite false 0x1e000000000000 (-52).
Definition f2_0 : float := S754_finite false 0x10000000000000 (-51).
Definition f3_0 : float := S754_finite false 0x18000000000000 (-51).

End Py.

Import Py.

(** ** core.py *)

Module Core.

(** What the viewer uses of a [fitz.Document]: its length.  The class
    defines [__len__] and no [__bool__], so a document is true in a
    condition exactly when it has a page. *)
Record Document : Type := mkDocument { page_count : nat }.

Definition truthy (d : Document) : bool := negb (Nat.eqb (page_count d) 0).

(** The collaborators outside the repository. *)
Record External : Type := mkExternal {
  Pixmap : Type;
  (** [fitz.open(file_path)] *)
  fitz_open : string -> result Document;
  (** [os.path.basename] *)
  basename : string -> string;
  (** [load_page], [get_pixmap], [QImage], [QPixmap.fromImage] for a
      0-based page index and a zoom *)
  render : Document -> Z -> float -> result Pixmap;
  (** [pixmap.height()] *)
  height : Pixmap -> Z
}.

Record PDFViewerCore : Type := mkCore {
  pdf_document : option Document;
  current_pdf_path : option string;
  current_page_num : Z;
  total_pages : Z;
  zoom_level : float;
  scroll_position : Z;
  page_height : Z;
  scroll_threshold : Z
}.

Definition set_current_page_num (v : Z) (self : PDFViewerCore) : PDFViewerCore :=
  mkCore (pdf_document self) (current_pdf_path self) v (total_pages self)
         (zoom_level self) (scroll_position self) (page_height self)
         (scroll_threshold self).

Definition set_scroll_position (v : Z) (self : PDFViewerCore) : PDFViewerCore :=
  mkCore (pdf_document self) (current_pdf_path self) (current_page_num self)
         (total_pages self) (zoom_level self) v (page_height self)
         (scroll_threshold self).

Definition set_zoom_level (v : float) (self : PDFViewerCore) : PDFViewerCore :=
  mkCore (pdf_document self) (current_pdf_path self) (current_page_num self)
         (total_pages self) v (scroll_position self) (page_height self)
         (scroll_threshold self).

Definition set_page_height (v : Z) (self : PDFViewerCore) : PDFViewerCore :=
  mkCore (pdf_document self) (current_pdf_path self) (current_page_num self)
         (total_pages self) (zoom_level self) (scroll_position self) v
         (scroll_threshold self).

(** [__init__] *)
Definition init : PDFViewerCore :=
  mkCore None None 0 0 f1_0 0 0 100.

(** [reset_pdf_state]: every field but [scroll_threshold]. *)
Definition reset_pdf_state (self : PDFViewerCore) : PDFViewerCore :=
  mkCore None None 0 0 f1_0 0 0 (scroll_threshold self).

Section WithExternal.

Variable ext : External.

(** [load_pdf]: the [try] body assigns field after field; [fitz.open] is
    the call that raises, before any assignment. *)
Definition load_pdf (self : PDFViewerCore) (file_path : string)
  : (bool * string) * PDFViewerCore :=
  match fitz_open ext file_path with
  | Ok doc =>
      ((true, "Successfully loaded: " ++ basename ext file_path)%string,
       mkCore (Some doc) (Some file_path) 1 (Z.of_nat (page_count doc))
              (zoom_level self) 0 (page_height self) (scroll_threshold self))
  | Raise e =>
      ((false, "Could not load PDF: " ++ str_of_exn e)%string,
       reset_pdf_state self)
  end.

(** [get_page_pixmap(page_num=None)] *)
Definition get_page_pixmap (self : PDFViewerCore) (page_num : option Z)
  : result (option (Pixmap ext) * PDFViewerCore) :=
  match pdf_document self with
  | None => Ok (None, self)
  | Some doc =>
      if negb (truthy doc) then Ok (None, self)
      else
        let page_num :=
          match page_num with
          | None => current_page_num self
          | Some n => n
          end in
        if (0 <=? page_num - 1) && (page_num - 1 <? total_pages self) then
          do pixmap <- render ext doc (page_num - 1) (zoom_level self);
          Ok (Some pixmap, set_page_height (height ext pixmap) self)
        else Ok (None, self)
  end.

End WithExternal.

(** The truth value of [self.pdf_document]. *)
Definition has_truthy_document (self : PDFViewerCore) : bool :=
  match pdf_document self with
  | None => false
  | Some doc => truthy doc
  end.

(** [go_to_page] *)
Definition go_to_page (self : PDFViewerCore) (page_num : Z)
  : (bool * option string) * PDFViewerCore :=
  if has_truthy_document self && (0 <? total_pages self) then
    if (1 <=? page_num) && (page_num <=? total_pages self) then
      ((true, None),
       set_scroll_position 0 (set_current_page_num page_num self))
    else
      ((false,
        Some ("Page number must be between 1 and "
              ++ str_of_int (total_pages self) ++ ".")%string),
       self)
  else ((false, Some "No PDF document loaded."%string), self).

(** [next_page] *)
Definition next_page (self : PDFViewerCore)
  : (bool * option string) * PDFViewerCore :=
  if has_truthy_document self && (current_page_num self <? total_pages self)
  then go_to_page self (current_page_num self + 1)
  else if has_truthy_document self
  then ((false, Some "You are already on the last page."%string), self)
  else ((false, Some "No PDF document loaded."%string), self).

(** [prev_page] *)
Definition prev_page (self : PDFViewerCore)
  : (bool * option string) * PDFViewerCore :=
  if has_truthy_document self && (1 <? current_page_num self)
  then go_to_page self (current_page_num self - 1)
  else if has_truthy_document self
  then ((false, Some "You are already on the first page."%string), self)
  else ((false, Some "No PDF document loaded."%string), self).

(** [zoom_in(factor=0.1)] *)
Definition zoom_in (self : PDFViewerCore) (factor : float)
  : bool * PDFViewerCore :=
  (true, set_zoom_level (Py.min (fadd (zoom_level self) factor) f3_0) self).

(** [zoom_out(factor=0.1)] *)
Definition zoom_out (self : PDFViewerCore) (factor : float)
  : bool * PDFViewerCore :=
  (true, set_zoom_level (Py.max (fsub (zoom_level self) factor) f0_5) self).

(** [zoom_in_by_factor] *)
Definition zoom_in_by_factor (self : PDFViewerCore) (factor : float)
  : bool * PDFViewerCore :=
  (true, set_zoom_level (Py.min (fmul (zoom_level self) factor) f3_0) self).

(** [zoom_out_by_factor]: the division raises on a zero factor. *)
Definition zoom_out_by_factor (self : PDFViewerCore) (factor : float)
  : result (bool * PDFViewerCore) :=
  do q <- truediv (zoom_level self) factor;
  Ok (true, set_zoom_level (Py.max q f0_5) self).

(** [get_document_info] *)
Record DocumentInfo : Type := mkInfo {
  info_current_page : Z;
  info_total_pages : Z;
  info_zoom_level : float;
  info_file_path : option string;
  info_has_document : bool
}.

Definition get_document_info (self : PDFViewerCore) : DocumentInfo :=
  mkInfo (current_page_num self) (total_pages self) (zoom_level self)
         (current_pdf_path self)
         (match pdf_document self with None => false | Some _ => true end).

End Core.

(** ** widget.py *)

Module Widget.

Inductive EventType : Type :=
| TouchBegin
| TouchUpdate
| TouchEnd
| OtherEvent.

(** [touch_point.pos()] with its [x()] and [y()]. *)
Record TouchPoint : Type := mkTouchPoint { pos_x : float; pos_y : float }.

Record Event : Type := mkEvent {
  type : EventType;
  touchPoints : list TouchPoint
}.

(** What the handler relies on outside the repository. *)
Record External : Type := mkExternal {
  (** [x ** y] on floats, which the C library computes and which raises
      [OverflowError] out of range *)
  pow : float -> float -> result float;
  (** [QWidget.event], reached through [super().event(event)] *)
  super_event : Event -> bool
}.

(** [self.parent_viewer], the object the handler calls in place: the type
    of its states and the two methods called.  A method answers with the
    state it leaves behind and with the exception it raised, if any. *)
Record ParentViewer : Type := mkParentViewer {
  viewer : Type;
  zoom_in_by_factor : viewer -> float -> viewer * option exn;
  zoom_out_by_factor : viewer -> float -> viewer * option exn
}.

(** The attribute [initial_distance] exists only during a pinch:
    [hasattr(self, 'initial_distance')] is [Some]. *)
Record PDFContentWidget : Type := mkWidget {
  pinch_scale_factor : float;
  last_pinch_scale : float;
  initial_distance : option float
}.

(** [__init__] *)
Definition init : PDFContentWidget := mkWidget f1_0 f1_0 None.

Section WithExternal.

Variable ext : External.

Variable parent_viewer : ParentViewer.

(** The widget and the parent viewer as a statement leaves them. *)
Definition objects : Type := PDFContentWidget * viewer parent_viewer.

(** The two-point branch up to the [TouchEnd] test: the objects afterwards
    and the exception raised, if any.  The call on the parent viewer comes
    before the assignment to [last_pinch_scale]: when it raises, the
    parent viewer is as the call left it and the widget is untouched. *)
Definition pinch_step (self : PDFContentWidget) (v : viewer parent_viewer)
    (current_distance : float) : objects * option exn :=
  match initial_distance self with
  | Some d0 =>
      match truediv current_distance d0 with
      | Raise e => ((self, v), Some e)
      | Ok scale_factor =>
          let zoom_delta := fsub scale_factor (last_pinch_scale self) in
          if fgt (fabs zoom_delta) f0_05 then
            let '(v', raised) :=
              if fgt zoom_delta f0
              then zoom_in_by_factor parent_viewer v f1_1
              else zoom_out_by_factor parent_viewer v f1_1 in
            match raised with
            | Some e => ((self, v'), Some e)
            | None =>
                ((mkWidget (pinch_scale_factor self) scale_factor
                           (initial_distance self), v'), None)
            end
          else ((self, v), None)
      end
  | None =>
      ((mkWidget (pinch_scale_factor self) f1_0 (Some current_distance), v),
       None)
  end.

(** The distance between the two touch points,
    [((x1 - x2) ** 2 + (y1 - y2) ** 2) ** 0.5]. *)
Definition distance (touch_point1 touch_point2 : TouchPoint) : result float :=
  do dx2 <- pow ext (fsub (pos_x touch_point1) (pos_x touch_point2)) f2_0;
  do dy2 <- pow ext (fsub (pos_y touch_point1) (pos_y touch_point2)) f2_0;
  pow ext (fadd dx2 dy2) f0_5.

(** [handle_touch_event]: the objects afterwards, and the flag returned or
    the exception raised.  An exception leaves the function at once, so
    the [TouchEnd] test and [return True] are reached only when the
    distance, the division and the call on the parent viewer returned. *)
Definition handle_touch_event (self : PDFContentWidget)
    (v : viewer parent_viewer) (event : Event) : objects * result bool :=
  match touchPoints event with
  | [touch_point1; touch_point2] =>
      match distance touch_point1 touch_point2 with
      | Raise e => ((self, v), Raise e)
      | Ok current_distance =>
          match pinch_step self v current_distance with
          | (after, Some e) => (after, Raise e)
          | ((self1, v'), None) =>
              let self2 :=
                match type event with
                | TouchEnd => mkWidget (pinch_scale_factor self1) f1_0 None
                | _ => self1
                end in
              ((self2, v'), Ok true)
          end
      end
  | _ => ((self, v), Ok (super_event ext event))
  end.

(** [event] *)
Definition event (self : PDFContentWidget) (v : viewer parent_viewer)
    (ev : Event) : objects * result bool :=
  match type ev with
  | TouchBegin | TouchUpdate | TouchEnd => handle_touch_event self v ev
  | OtherEvent => ((self, v), Ok (super_event ext ev))
  end.

End WithExternal.

(** A C library for examples: squares by one multiplication, square roots
    correctly rounded, and a base class that declines every event. *)
Definition sample_ext : External :=
  mkExternal
    (fun x y => Ok (if feq y f2_0 then fmul x x else fsqrt x))
    (fun _ => false).

(** A parent viewer for examples: it keeps the list of the calls made on
    it, in order, and never raises. *)
Inductive Call : Type :=
| called_zoom_in_by_factor (factor : float)
| called_zoom_out_by_factor (factor : float).

Definition recorder : ParentViewer :=
  mkParentViewer (list Call)
    (fun calls factor => (calls ++ [called_zoom_in_by_factor factor], None))
    (fun calls factor => (calls ++ [called_zoom_out_by_factor factor], None)).

(** A touch point on the x axis. *)
Definition at_x (x : Z) : TouchPoint := mkTouchPoint (of_int x) f0.

(** A widget in the middle of a pinch that began at distance 100. *)
Definition tracking : PDFContentWidget := mkWidget f1_0 f1_0 (Some (of_int 100)).

End Widget.

(** ** Sessions: sequences of calls on one [PDFViewerCore] *)

Module Session.

Import Core.

(** A call of one of the state-changing methods of [PDFViewerCore]. *)
Inductive op : Type :=
| Load (file_path : string)
| GoToPage (page_num : Z)
| NextPage
| PrevPage
| ZoomIn (factor : float)
| ZoomOut (factor : float)
| ZoomInByFactor (factor : float)
| ZoomOutByFactor (factor : float)
| ResetPdfState.

(** [doc] is the open document of [self]: the object is stored and
    [total_pages] is the length [load_pdf] read from it. *)
Definition is_open (self : PDFViewerCore) (doc : Document) : Prop :=
  pdf_document self = Some doc /\ total_pages self = Z.of_nat (page_count doc).

(** [next_page] called [k] times in a row: the returned pairs in order and
    the final state. *)
Fixpoint repeat_next_page (k : nat) (self : PDFViewerCore)
  : list (bool * option string) * PDFViewerCore :=
  match k with
  | O => ([], self)
  | S k' =>
      let '(r, self1) := next_page self in
      let '(rs, self2) := repeat_next_page k' self1 in
      (r :: rs, self2)
  end.

(** The snapshot fields the specification calls the session. *)
Definition page_invariant (self : PDFViewerCore) : Prop :=
  info_has_document (get_document_info self) = true ->
  1 <= current_page_num self <= total_pages self.

Definition zoom_invariant (self : PDFViewerCore) : Prop :=
  fle f0_5 (zoom_level self) = true /\ fle (zoom_level self) f3_0 = true.

(** A viewer showing page 1 of a two-page document at zoom 1.0. *)
Definition two_pages : PDFViewerCore :=
  mkCore (Some (mkDocument 2)) (Some "a.pdf"%string) 1 2 f1_0 0 0 100.

(** A library whose every file opens as a document of [n] pages. *)
Definition all_files_have (n : nat) : External :=
  mkExternal unit (fun _ => Ok (mkDocument n)) (fun p => p)
             (fun _ _ _ => Ok tt) (fun _ => 0).

Section WithExternal.

Variable ext : External.

(** The state after a call; a call that raises leaves it as it was. *)
Definition exec (o : op) (self : PDFViewerCore) : PDFViewerCore :=
  match o with
  | Load file_path => snd (load_pdf ext self file_path)
  | GoToPage n => snd (go_to_page self n)
  | NextPage => snd (next_page self)
  | PrevPage => snd (prev_page self)
  | ZoomIn f => snd (zoom_in self f)
  | ZoomOut f => snd (zoom_out self f)
  | ZoomInByFactor f => snd (zoom_in_by_factor self f)
  | ZoomOutByFactor f =>
      match zoom_out_by_factor self f with
      | Ok (_, self') => self'
      | Raise _ => self
      end
  | ResetPdfState => reset_pdf_state self
  end.

Definition run (ops : list op) (self : PDFViewerCore) : PDFViewerCore :=
  fold_left (fun s o => exec o s) ops self.

(** The state after [get_page_pixmap], which is the state before it when
    the renderer raises. *)
Definition after_get_page_pixmap (self : PDFViewerCore) (page_num : option Z)
  : PDFViewerCore :=
  match get_page_pixmap ext self page_num with
  | Ok (_, self') => self'
  | Raise _ => self
  end.

(** The states a fresh core reaches through calls that satisfy [allowed]. *)
Inductive reachable_by (allowed : op -> Prop) : PDFViewerCore -> Prop :=
| reach_init : reachable_by allowed init
| reach_exec (self : PDFViewerCore) (o : op) :
    reachable_by allowed self -> allowed o ->
    reachable_by allowed (exec o self).

Definition reachable : PDFViewerCore -> Prop := reachable_by (fun _ => True).

End WithExternal.

(** Calls whose zoom arguments are as the viewer passes them: a zoom step
    is a float that is not negative, a zoom factor is a float that is at
    least one.  The other calls, and the files, are unrestricted. *)
Definition zooms_forward (o : op) : Prop :=
  match o with
  | ZoomIn f | ZoomOut f => valid f = true /\ fle f0 f = true
  | ZoomInByFactor f | ZoomOutByFactor f => valid f = true /\ fle f1_0 f = true
  | _ => True
  end.

End Session.


(** ** Reading binary64 operations as integer arithmetic

    [SpecFloat] rounds by shifting a mantissa right bit by bit while it
    tracks a round bit and a sticky bit.  The definitions below say the same
    with a quotient and a remainder; the lemmas of [Rounding] prove that the
    two agree. *)

Module Round.

(** The position of [num/den] (with [0 <= num < den]) in the unit interval,
    as [SpecFloat] records it. *)
Definition loc_of_frac (num den : Z) : location :=
  if num =? 0 then loc_Exact else loc_Inexact (2 * num ?= den).

(** The integer nearest to [q + num/den], ties to even. *)
Definition nearest (q num den : Z) : Z :=
  round_nearest_even q (loc_of_frac num den).

(** A rounded mantissa [m1 <= 2^53] at exponent [e1] as a float. *)
Definition overflow_or (s : bool) (m : positive) (e : Z) : float :=
  if e <=? emax - prec then S754_finite s m e else S754_infinity s.

Definition finish (s : bool) (m1 e1 : Z) : float :=
  match m1 with
  | Zpos p =>
      if m1 <? 2 ^ prec then overflow_or s p e1
      else overflow_or s (Z.to_pos (2 ^ (prec - 1))) (e1 + 1)
  | _ => S754_zero s
  end.

(** The floats the zoom level is meant to range over: positive, normal and
    between 0.5 and 3.0. *)
Definition zoomable (z : float) : Prop :=
  exists (m : positive) (e : Z),
    z = S754_finite false m e /\
    2 ^ 52 <= Zpos m < 2 ^ 53 /\
    -53 <= e <= -51 /\
    (e = -51 -> Zpos m <= 3 * 2 ^ 51).

(** What a sum or a product that cannot fall below 0.5 looks like. *)
Definition at_least_half (r : float) : Prop :=
  r = S754_infinity false \/
  exists (m : positive) (e : Z),
    r = S754_finite false m e /\ 2 ^ 52 <= Zpos m < 2 ^ 53 /\ -53 <= e.

(** What a difference or a quotient that cannot exceed 3.0 looks like. *)
Definition at_most_three (r : float) : Prop :=
  (exists s : bool, r = S754_zero s) \/
  (exists (m : positive) (e : Z), r = S754_finite true m e) \/
  r = S754_infinity true \/
  exists (m : positive) (e : Z),
    r = S754_finite false m e /\
    (-1074 < e -> 2 ^ 52 <= Zpos m < 2 ^ 53) /\
    (e < -51 \/ (e = -51 /\ Zpos m <= 3 * 2 ^ 51)).

(** A finite float counted in steps of [2^-1074], the spacing of the
    smallest binary64 floats: every valid finite float is a whole number of
    them. *)
Definition units (x : float) : Z :=
  match x with
  | S754_finite s m e => cond_Zopp s (Zpos m * 2 ^ (e + 1074))
  | _ => 0
  end.

(** The distance from a valid finite float to the next one of the same
    exponent (its unit in the last place), in the same steps. *)
Definition ulp (x : float) : Z :=
  match x with
  | S754_finite _ _ e => 2 ^ (e + 1074)
  | _ => 0
  end.

(** The two neighbours of a positive normal float [m * 2^e] with
    [2^52 <= m < 2^53]: the next float above (across a power of two the
    exponent goes up and the mantissa starts again at [2^52]) and the next
    float below (below a power of two the exponent goes down and the
    mantissa is [2^53 - 1]). *)
Definition next_up (x : float) : float :=
  match x with
  | S754_finite false m e =>
      if Zpos m + 1 =? 2 ^ 53
      then S754_finite false 0x10000000000000 (e + 1)
      else S754_finite false (m + 1) e
  | _ => x
  end.

Definition next_down (x : float) : float :=
  match x with
  | S754_finite false m e =>
      if Zpos m =? 2 ^ 52
      then S754_finite false 0x1fffffffffffff (e - 1)
      else S754_finite false (Pos.pred m) e
  | _ => x
  end.

(** [clamp(x, lo, hi)] *)
Definition clamp (x lo hi : float) : float :=
  if flt x lo then lo else if flt hi x then hi else x.

End Round.

(** ** More of core.py: walking back, and what every session keeps *)

Module Lifecycle.

Import Core Session.

(** [prev_page] called [k] times in a row: the returned pairs in order and
    the final state. *)
Fixpoint repeat_prev_page (k : nat) (self : PDFViewerCore)
  : list (bool * option string) * PDFViewerCore :=
  match k with
  | O => ([], self)
  | S k' =>
      let '(r, self1) := prev_page self in
      let '(rs, self2) := repeat_prev_page k' self1 in
      (r :: rs, self2)
  end.

(** What holds of the fields after any calls whatever, with any arguments:
    without a document everything is zero; with one, [total_pages] is its
    length and the current page is at least 1 and, when the document has a
    page, at most [total_pages].  The core never moves [scroll_position]
    from 0 nor [scroll_threshold] from 100. *)
Definition coherent (self : PDFViewerCore) : Prop :=
  match pdf_document self with
  | None =>
      current_pdf_path self = None /\
      current_page_num self = 0 /\ total_pages self = 0
  | Some doc =>
      current_pdf_path self <> None /\
      total_pages self = Z.of_nat (page_count doc) /\
      1 <= current_page_num self /\
      (current_page_num self <= total_pages self \/
       (total_pages self = 0 /\ current_page_num self = 1))
  end /\
  scroll_position self = 0 /\
  scroll_threshold self = 100.

(** A viewer on page 2 of a three-page document. *)
Definition middle_of_three : PDFViewerCore :=
  mkCore (Some (mkDocument 3)) (Some "a.pdf"%string) 2 3 f1_0 0 0 100.

(** A library in which no file opens. *)
Definition no_file_opens : External :=
  mkExternal unit (fun _ => Raise (Exception "no such file"%string))
             (fun p => p) (fun _ _ _ => Ok tt) (fun _ => 0).

(** A viewer on page 3 of a three-page document. *)
Definition last_of_three : PDFViewerCore :=
  mkCore (Some (mkDocument 3)) (Some "a.pdf"%string) 3 3 f1_0 0 0 100.

End Lifecycle.

(** ** Floats on one side of a normal float *)

Module Side.

(** A float that is not below the positive normal float [m * 2^e]: plus
    infinity, or a positive normal float that compares at or above it. *)
Definition not_below (m : positive) (e : Z) (r : float) : Prop :=
  r = S754_infinity false \/
  exists (m' : positive) (e' : Z),
    r = S754_finite false m' e' /\ 2 ^ 52 <= Zpos m' < 2 ^ 53 /\
    (e < e' \/ (e' = e /\ Zpos m <= Zpos m')).

(** A float that is not above [m * 2^e]: a zero, a negative float, or a
    positive canonical float that compares at or below it. *)
Definition not_above (m : positive) (e : Z) (r : float) : Prop :=
  (exists s : bool, r = S754_zero s) \/
  (exists (m' : positive) (e' : Z), r = S754_finite true m' e') \/
  r = S754_infinity true \/
  exists (m' : positive) (e' : Z),
    r = S754_finite false m' e' /\
    (-1074 < e' -> 2 ^ 52 <= Zpos m' < 2 ^ 53) /\
    (e' < e \/ (e' = e /\ Zpos m' <= Zpos m)).

(** A float between 0.25 and 4 counted in steps of [2^-56], the spacing
    of the floats around 0.1. *)
Definition steps56 (x : float) : Z :=
  match x with
  | S754_finite false m e => Zpos m * 2 ^ (e + 56)
  | _ => 0
  end.

End Side.

(** ** main.py: the application around the core, and widget.py's wheel *)

Module App.

Import Core.

(** What [PDFViewerApp] relies on outside the repository, besides the
    collaborators of the core. *)
Record External : Type := mkExternal {
  core_ext : Core.External;
  (** the truth value of a [QPixmap] in [if pixmap:] *)
  pixmap_truthy : Pixmap core_ext -> bool;
  (** [int(text)]; [None] when it raises [ValueError] *)
  int_of_text : string -> option Z;
  (** [isinstance(e, ValueError)] for an exception of the renderer *)
  is_ValueError : exn -> bool
}.

Inductive Icon : Type := critical | warning | information.

Section WithExternal.

Variable ext : External.

(** The calls made on Qt objects, in the order they are made. *)
Inductive Gui : Type :=
| page_input_setText (text : string)
| total_pages_label_setText (text : string)
| pdf_content_label_setText (text : string)
| pdf_content_label_setPixmap (pixmap : Pixmap (core_ext ext))
| scrollbar_setValue (value : Z)
(** [scrollbar.setValue(scrollbar.maximum())] *)
| scrollbar_setValue_maximum
| QMessageBox (icon : Icon) (title : string) (text : option string)
| event_accept.

(** What a method of the application leaves behind: the Qt calls it made,
    the core afterwards, and the exception it raised, if any.  Unlike the
    methods of the core, these can raise after they have changed state. *)
Definition outcome : Type := (list Gui * PDFViewerCore) * option exn.

(** [first; then second], where [second] runs only if [first] returned. *)
Definition and_then (first : outcome) (second : PDFViewerCore -> outcome)
  : outcome :=
  match first with
  | ((calls, pdf_core), None) =>
      let '((calls', pdf_core'), raised) := second pdf_core in
      ((calls ++ calls', pdf_core'), raised)
  | ((calls, pdf_core), Some e) => ((calls, pdf_core), Some e)
  end.

Definition returns (calls : list Gui) (pdf_core : PDFViewerCore) : outcome :=
  ((calls, pdf_core), None).

(** [display_page]; the attribute [scroll_area] exists from [init_ui] on. *)
Definition display_page (pdf_core : PDFViewerCore) : outcome :=
  match get_page_pixmap (core_ext ext) pdf_core None with
  | Raise e => (([], pdf_core), Some e)
  | Ok (Some pixmap, pdf_core') =>
      if pixmap_truthy ext pixmap then
        returns [pdf_content_label_setPixmap pixmap;
                 scrollbar_setValue (scroll_position pdf_core')] pdf_core'
      else returns [] pdf_core'
  | Ok (None, pdf_core') => returns [] pdf_core'
  end.

(** [update_page_display] *)
Definition update_page_display (pdf_core : PDFViewerCore) : outcome :=
  let doc_info := get_document_info pdf_core in
  if info_has_document doc_info && (0 <? info_total_pages doc_info) then
    and_then
      (returns
         [page_input_setText (str_of_int (info_current_page doc_info));
          total_pages_label_setText
            ("of " ++ str_of_int (info_total_pages doc_info))%string]
         pdf_core)
      display_page
  else
    returns [page_input_setText "0"%string;
             total_pages_label_setText "of 0"%string;
             pdf_content_label_setText "Please open a PDF file."%string]
            pdf_core.

(** The truth value of a string: it is not empty. *)
Definition truthy_str (s : string) : bool := negb (String.eqb s ""%string).

(** [open_pdf_file], given the path the file dialog returned (empty when
    the dialog was cancelled). *)
Definition open_pdf_file (pdf_core : PDFViewerCore) (file_path : string)
  : outcome :=
  if truthy_str file_path then
    let '((success, message), pdf_core') :=
      load_pdf (core_ext ext) pdf_core file_path in
    if success then update_page_display pdf_core'
    else returns [QMessageBox critical "Error Loading PDF"%string (Some message)]
                 pdf_core'
  else returns [] pdf_core.

(** The [elif message:] branch of [next_page] and [prev_page]. *)
Definition navigation_notice (message : option string) : list Gui :=
  match message with
  | Some m =>
      if truthy_str m then [QMessageBox information "Navigation"%string message]
      else []
  | None => []
  end.

(** [next_page] *)
Definition next_page (pdf_core : PDFViewerCore) : outcome :=
  let '((success, message), pdf_core') := Core.next_page pdf_core in
  if success then update_page_display pdf_core'
  else returns (navigation_notice message) pdf_core'.

(** [prev_page] *)
Definition prev_page (pdf_core : PDFViewerCore) : outcome :=
  let '((success, message), pdf_core') := Core.prev_page pdf_core in
  if success then update_page_display pdf_core'
  else returns (navigation_notice message) pdf_core'.

(** [go_to_page_from_input], given the text of the page field.  The
    [except ValueError] clause also covers the display update. *)
Definition invalid_input (pdf_core : PDFViewerCore) : list Gui :=
  [QMessageBox warning "Invalid Input"%string
     (Some "Please enter a valid number for the page."%string);
   page_input_setText (str_of_int (current_page_num pdf_core))].

Definition go_to_page_from_input (pdf_core : PDFViewerCore) (text : string)
  : outcome :=
  match int_of_text ext text with
  | None => returns (invalid_input pdf_core) pdf_core
  | Some page_num =>
      let '((success, message), pdf_core') := go_to_page pdf_core page_num in
      if success then
        match update_page_display pdf_core' with
        | ((calls, pdf_core''), Some e) =>
            if is_ValueError ext e
            then returns (calls ++ invalid_input pdf_core'') pdf_core''
            else ((calls, pdf_core''), Some e)
        | done => done
        end
      else
        returns
          [QMessageBox warning "Invalid Page"%string message;
           page_input_setText (str_of_int (current_page_num pdf_core'))]
          pdf_core'
  end.

(** [zoom_in], [zoom_out]: the core's defaults, then the display. *)
Definition zoom_in (pdf_core : PDFViewerCore) : outcome :=
  let '(changed, pdf_core') := Core.zoom_in pdf_core f0_1 in
  if changed then update_page_display pdf_core' else returns [] pdf_core'.

Definition zoom_out (pdf_core : PDFViewerCore) : outcome :=
  let '(changed, pdf_core') := Core.zoom_out pdf_core f0_1 in
  if changed then update_page_display pdf_core' else returns [] pdf_core'.

(** [zoom_in_by_factor], [zoom_out_by_factor] *)
Definition zoom_in_by_factor (pdf_core : PDFViewerCore) (factor : float)
  : outcome :=
  let '(changed, pdf_core') := Core.zoom_in_by_factor pdf_core factor in
  if changed then update_page_display pdf_core' else returns [] pdf_core'.

Definition zoom_out_by_factor (pdf_core : PDFViewerCore) (factor : float)
  : outcome :=
  match Core.zoom_out_by_factor pdf_core factor with
  | Raise e => (([], pdf_core), Some e)
  | Ok (changed, pdf_core') =>
      if changed then update_page_display pdf_core' else returns [] pdf_core'
  end.

(** [scroll_up], given [scrollbar.value()]. *)
Definition scroll_up (pdf_core : PDFViewerCore) (current_scroll : Z)
  : outcome :=
  if negb (has_truthy_document pdf_core) then returns [] pdf_core
  else if current_scroll <=? 0 then
    let '((success, _), pdf_core') := Core.prev_page pdf_core in
    if success then
      and_then (update_page_display pdf_core')
               (returns [scrollbar_setValue_maximum])
    else returns [] pdf_core'
  else
    let new_scroll := Z.max 0 (current_scroll - scroll_threshold pdf_core) in
    returns [scrollbar_setValue new_scroll] pdf_core.

(** [scroll_down], given [scrollbar.value()] and [scrollbar.maximum()]. *)
Definition scroll_down (pdf_core : PDFViewerCore)
    (current_scroll max_scroll : Z) : outcome :=
  if negb (has_truthy_document pdf_core) then returns [] pdf_core
  else if max_scroll <=? current_scroll then
    let '((success, _), pdf_core') := Core.next_page pdf_core in
    if success then
      and_then (update_page_display pdf_core')
               (returns [scrollbar_setValue 0])
    else returns [] pdf_core'
  else
    let new_scroll :=
      Z.min max_scroll (current_scroll + scroll_threshold pdf_core) in
    returns [scrollbar_setValue new_scroll] pdf_core.

(** [PDFContentWidget.wheelEvent] with the application as parent viewer,
    given whether Ctrl is held, [event.angleDelta().y()] and the scroll
    bar's value and maximum. *)
Definition wheelEvent (pdf_core : PDFViewerCore) (ctrl : bool) (delta_y : Z)
    (current_scroll max_scroll : Z) : outcome :=
  if ctrl then
    and_then (if 0 <? delta_y then zoom_in pdf_core else zoom_out pdf_core)
             (returns [event_accept])
  else
    and_then (if 0 <? delta_y then scroll_up pdf_core current_scroll
              else scroll_down pdf_core current_scroll max_scroll)
             (returns [event_accept]).

(** The application as the [parent_viewer] of the content widget.  Its
    state is the Qt calls made so far and the core; a method of the
    application adds its calls and leaves its core. *)
Definition as_parent (method : PDFViewerCore -> float -> outcome)
    (v : list Gui * PDFViewerCore) (factor : float)
  : (list Gui * PDFViewerCore) * option exn :=
  let '((calls, pdf_core'), raised) := method (snd v) factor in
  ((fst v ++ calls, pdf_core'), raised).

Definition parent_viewer : Widget.ParentViewer :=
  Widget.mkParentViewer (list Gui * PDFViewerCore)
    (as_parent zoom_in_by_factor) (as_parent zoom_out_by_factor).

End WithExternal.

(** A renderer for examples: every page is a pixmap 800 high. *)
Definition sample_core_ext : Core.External :=
  Core.mkExternal Z (fun _ => Ok (mkDocument 3)) (fun p => p)
                  (fun _ _ _ => Ok 800) (fun h => h).

(** An application for examples: pixmaps are true, only "7" is a number. *)
Definition sample_ext : External :=
  mkExternal sample_core_ext (fun _ => true)
             (fun text => if String.eqb text "7" then Some 7 else None)
             (fun _ => false).


(** An application whose library opens no file. *)
Definition closed_ext : External :=
  mkExternal Lifecycle.no_file_opens (fun _ => true) (fun _ => None)
             (fun _ => false).

End App.

(** * Binary64 rounding *)

Module Rounding.

Import Round.

Lemma digits2_pos_bounds (p : positive) :
  2 ^ (Zpos (digits2_pos p) - 1) <= Zpos p < 2 ^ Zpos (digits2_pos p).
Proof.
  induction p as [p IH | p IH |]; cbn [digits2_pos].
  - rewrite Pos2Z.inj_succ.
    replace (Z.succ (Zpos (digits2_pos p)) - 1)
      with (Z.succ (Zpos (digits2_pos p) - 1)) by lia.
    rewrite !Z.pow_succ_r by lia. 
    remember (2 ^ (Z.pos (digits2_pos p) - 1)) as a.
    remember (2 ^ (Z.pos (digits2_pos p))) as b. lia.
  - rewrite Pos2Z.inj_succ.
    replace (Z.succ (Zpos (digits2_pos p)) - 1)
      with (Z.succ (Zpos (digits2_pos p) - 1)) by lia.
    rewrite !Z.pow_succ_r by lia.
    remember (2 ^ (Z.pos (digits2_pos p) - 1)) as a.
    remember (2 ^ (Z.pos (digits2_pos p))) as b. lia.
  - simpl. lia.
Qed.

Lemma digits_lower (p : positive) (a : Z) :
  2 ^ a <= Zpos p -> a + 1 <= Zpos (digits2_pos p).
Proof.
  intros H. destruct (Z.le_gt_cases (a + 1) (Zpos (digits2_pos p))) as [|Hlt];
    [assumption|].
  pose proof (digits2_pos_bounds p) as [_ Hu].
  assert (2 ^ Zpos (digits2_pos p) <= 2 ^ a)
    by (apply Z.pow_le_mono_r; lia).
  lia.
Qed.

Lemma digits_upper (p : positive) (b : Z) :
  Zpos p < 2 ^ b -> Zpos (digits2_pos p) <= b.
Proof.
  intros H. destruct (Z.le_gt_cases (Zpos (digits2_pos p)) b) as [|Hlt];
    [assumption|].
  pose proof (digits2_pos_bounds p) as [Hl _].
  assert (0 <= b).
  { destruct (Z.le_gt_cases 0 b); [assumption|].
    rewrite Z.pow_neg_r in H by lia. lia. }
  assert (2 ^ b <= 2 ^ (Zpos (digits2_pos p) - 1))
    by (apply Z.pow_le_mono_r; lia).
  lia.
Qed.

Lemma iter_pos_nat {A : Type} (f : A -> A) (p : positive) :
  forall x : A, iter_pos f p x = Nat.iter (Pos.to_nat p) f x.
Proof.
  induction p as [p IH | p IH |]; intros x; cbn [iter_pos].
  - rewrite !IH, Pos2Nat.inj_xI.
    replace (S (2 * Pos.to_nat p))%nat
      with (Pos.to_nat p + (Pos.to_nat p + 1))%nat by lia.
    rewrite !Nat.iter_add. reflexivity.
  - rewrite !IH, Pos2Nat.inj_xO.
    replace (2 * Pos.to_nat p)%nat with (Pos.to_nat p + Pos.to_nat p)%nat by lia.
    rewrite Nat.iter_add. reflexivity.
  - reflexivity.
Qed.

(** One right shift divides the mantissa by two and moves the position. *)
Lemma shr_1_frac (m num den : Z) :
  0 <= m -> 0 <= num < den ->
  shr_1 (shr_record_of_loc m (loc_of_frac num den)) =
  shr_record_of_loc (m / 2) (loc_of_frac ((m mod 2) * den + num) (2 * den)).
Proof.
  intros Hm Hn.
  assert (Hshape :
    (m = 0 /\ m / 2 = 0 /\ m mod 2 = 0) \/
    (m = 1 /\ m / 2 = 0 /\ m mod 2 = 1) \/
    (exists p, m = Zpos p~0 /\ m / 2 = Zpos p /\ m mod 2 = 0) \/
    (exists p, m = Zpos p~1 /\ m / 2 = Zpos p /\ m mod 2 = 1)).
  { destruct m as [|[p|p|]|p].
    - left. repeat split.
    - right; right; right. exists p.
      assert (Zpos p~1 = 2 * Zpos p + 1) by lia.
      repeat split;
        [symmetry; apply Z.div_unique with 1
        | symmetry; apply Z.mod_unique with (Zpos p)]; lia.
    - right; right; left. exists p.
      assert (Zpos p~0 = 2 * Zpos p + 0) by lia.
      repeat split;
        [symmetry; apply Z.div_unique with 0
        | symmetry; apply Z.mod_unique with (Zpos p)]; lia.
    - right; left. repeat split.
    - lia. }
  unfold loc_of_frac.
  destruct Hshape as [(-> & -> & ->) | [(-> & -> & ->) |
    [(p & -> & -> & ->) | (p & -> & -> & ->)]]];
    repeat match goal with
    | |- context [(?a =? ?b)] => destruct (Z.eqb_spec a b)
    | |- context [(?a ?= ?b)] => destruct (Z.compare_spec a b)
    end; try lia; reflexivity.
Qed.

Lemma shr_iter_frac (n : nat) :
  forall m num den : Z,
  0 <= m -> 0 <= num < den ->
  Nat.iter n shr_1 (shr_record_of_loc m (loc_of_frac num den)) =
  shr_record_of_loc (m / 2 ^ Z.of_nat n)
    (loc_of_frac ((m mod 2 ^ Z.of_nat n) * den + num) (2 ^ Z.of_nat n * den)).
Proof.
  induction n as [|n IH]; intros m num den Hm Hn.
  - change (Nat.iter 0 shr_1 ?x) with x. cbn [Z.of_nat].
    rewrite Z.pow_0_r, Z.div_1_r, Z.mod_1_r.
    f_equal. f_equal; lia.
  - rewrite Nat.iter_succ, (IH m num den Hm Hn).
    assert (Hp : 0 < 2 ^ Z.of_nat n) by (apply Z.pow_pos_nonneg; lia).
    assert (Hmod : 0 <= m mod 2 ^ Z.of_nat n < 2 ^ Z.of_nat n)
      by (apply Z.mod_pos_bound; lia).
    rewrite shr_1_frac.
    + rewrite Nat2Z.inj_succ, Z.pow_succ_r by lia.
      replace (2 * 2 ^ Z.of_nat n) with (2 ^ Z.of_nat n * 2) by lia.
      rewrite <- Z.div_div by lia.
      rewrite (Z.rem_mul_r m (2 ^ Z.of_nat n) 2) by lia.
      f_equal. f_equal; ring.
    + apply Z.div_pos; lia.
    + split; [nia|].
      assert ((m mod 2 ^ Z.of_nat n) * den <= (2 ^ Z.of_nat n - 1) * den) by nia.
      lia.
Qed.

Lemma shr_frac (m num den e k : Z) :
  0 <= m -> 0 <= num < den -> 0 <= k ->
  shr (shr_record_of_loc m (loc_of_frac num den)) e k =
  (shr_record_of_loc (m / 2 ^ k)
     (loc_of_frac ((m mod 2 ^ k) * den + num) (2 ^ k * den)),
   e + k).
Proof.
  intros Hm Hn Hk. destruct k as [|p|p]; [| |lia].
  - cbn [shr]. rewrite Z.pow_0_r, Z.div_1_r, Z.mod_1_r.
    f_equal; [|lia]. f_equal. f_equal; lia.
  - cbn [shr]. rewrite iter_pos_nat, (shr_iter_frac _ m num den Hm Hn).
    rewrite positive_nat_Z. reflexivity.
Qed.

Lemma shr_m_record (m : Z) (l : location) : shr_m (shr_record_of_loc m l) = m.
Proof. destruct l as [|[| |]]; reflexivity. Qed.

Lemma loc_of_record (m : Z) (l : location) :
  loc_of_shr_record (shr_record_of_loc m l) = l.
Proof. destruct l as [|[| |]]; reflexivity. Qed.

Lemma loc_exact : loc_Exact = loc_of_frac 0 1.
Proof. reflexivity. Qed.

(** The nearest integer is the floor or the floor plus one. *)
Lemma nearest_bounds (q num den : Z) :
  q <= nearest q num den <= q + 1.
Proof.
  unfold nearest, loc_of_frac, round_nearest_even.
  destruct (num =? 0); [lia|].
  destruct (2 * num ?= den); [destruct (Z.even q)| |]; lia.
Qed.

Lemma nearest_exact (q den : Z) : nearest q 0 den = q.
Proof. reflexivity. Qed.

(** It is within half a unit of [q + num/den], and below it only when
    [num/den] is positive. *)
Lemma nearest_error (q num den : Z) :
  0 <= num < den ->
  2 * Z.abs (nearest q num den * den - (q * den + num)) <= den.
Proof.
  intros Hn. unfold nearest, loc_of_frac, round_nearest_even.
  destruct (Z.eqb_spec num 0); [lia|].
  destruct (Z.compare_spec (2 * num) den); [destruct (Z.even q)| |]; lia.
Qed.

Lemma fexp_eq (e : Z) : fexp prec emax e = Z.max (e - 53) (-1074).
Proof. reflexivity. Qed.

(** Dividing a mantissa of [d] digits by [2^k] with [d - k <= 53] leaves
    fewer than [2^53]. *)
Lemma shifted_small (M : positive) (k : Z) :
  0 <= k -> Zpos (digits2_pos M) - k <= 53 -> Zpos M / 2 ^ k < 2 ^ 53.
Proof.
  intros Hk Hd.
  pose proof (digits2_pos_bounds M) as [_ Hu].
  assert (Hp : 0 < 2 ^ k) by (apply Z.pow_pos_nonneg; lia).
  apply Z.div_lt_upper_bound; [lia|].
  rewrite <- Z.pow_add_r by lia.
  assert (2 ^ Zpos (digits2_pos M) <= 2 ^ (k + 53))
    by (apply Z.pow_le_mono_r; lia).
  lia.
Qed.

(** [binary_round_aux], when the mantissa is not too short for its
    exponent, is one division by a power of two, rounded to nearest even. *)
Lemma binary_round_aux_frac (s : bool) (M : positive) (E num den : Z) :
  0 <= num < den ->
  let e1 := fexp prec emax (Zpos (digits2_pos M) + E) in
  E <= e1 ->
  binary_round_aux prec emax s (Zpos M) E (loc_of_frac num den) =
  finish s
    (nearest (Zpos M / 2 ^ (e1 - E))
       ((Zpos M mod 2 ^ (e1 - E)) * den + num) (2 ^ (e1 - E) * den))
    e1.
Proof.
  intros Hn e1 He.
  assert (He1 : e1 = Z.max (Zpos (digits2_pos M) + E - 53) (-1074))
    by reflexivity.
  unfold binary_round_aux, shr_fexp. cbn [Zdigits2]. fold e1.
  rewrite shr_frac by lia.
  rewrite shr_m_record, loc_of_record.
  fold (nearest (Zpos M / 2 ^ (e1 - E))
          ((Zpos M mod 2 ^ (e1 - E)) * den + num) (2 ^ (e1 - E) * den)).
  set (m1 := nearest _ _ _).
  replace (E + (e1 - E)) with e1 by lia.
  assert (Hq : 0 <= Zpos M / 2 ^ (e1 - E) < 2 ^ 53).
  { split.
    - apply Z.div_pos; [lia|]. apply Z.pow_pos_nonneg; lia.
    - apply shifted_small; lia. }
  pose proof (nearest_bounds (Zpos M / 2 ^ (e1 - E))
                ((Zpos M mod 2 ^ (e1 - E)) * den + num)
                (2 ^ (e1 - E) * den)) as Hm1.
  fold m1 in Hm1.
  assert (Hm1' : 0 <= m1 <= 2 ^ 53) by lia.
  clearbody m1. clear Hq Hm1.
  destruct m1 as [|p|p]; [| |lia].
  - (* rounded to zero *)
    cbn [Zdigits2]. rewrite fexp_eq.
    replace (Z.max (0 + e1 - 53) (-1074) - e1) with
      (Z.max (0 + e1 - 53) (-1074) - e1 + 0) by lia.
    destruct (Z.max (0 + e1 - 53) (-1074) - e1 + 0) eqn:Hk; try lia;
      reflexivity.
  - cbn [Zdigits2]. rewrite fexp_eq.
    destruct (Z.ltb_spec (Zpos p) (2 ^ 53)) as [Hlt|Hge].
    + (* no carry *)
      assert (Hd : Zpos (digits2_pos p) <= 53) by (apply digits_upper; lia).
      unfold finish. 
      replace (Zpos p <? 2 ^ prec) with true
        by (symmetry; apply Z.ltb_lt; exact Hlt).
      destruct (Z.max (Zpos (digits2_pos p) + e1 - 53) (-1074) - e1) eqn:Hk;
        try lia; reflexivity.
    + (* the mantissa rounded up to 2^53 *)
      assert (Hp : Zpos p = 2 ^ 53) by lia.
      assert (Hp' : p = Z.to_pos (2 ^ 53)) by (rewrite <- Hp; reflexivity).
      subst p. 
      unfold finish.
      replace (Zpos (Z.to_pos (2 ^ 53)) <? 2 ^ prec) with false by reflexivity.
      replace (Zpos (digits2_pos (Z.to_pos (2 ^ 53)))) with 54 by reflexivity.
      replace (Z.max (54 + e1 - 53) (-1074) - e1) with 1 by lia.
      reflexivity.
Qed.

Lemma digits_unique (p : positive) (n : Z) :
  2 ^ (n - 1) <= Zpos p < 2 ^ n -> Zpos (digits2_pos p) = n.
Proof.
  intros [Hl Hu].
  pose proof (digits_lower p (n - 1) Hl).
  pose proof (digits_upper p n Hu).
  lia.
Qed.

Lemma iter_xO (d m : positive) : Zpos (Pos.iter xO m d) = Zpos m * 2 ^ Zpos d.
Proof.
  change (Pos.iter xO m d) with (shift_pos d m).
  rewrite shift_pos_correct, Zpower_pos_nat, Zpower_nat_Z, positive_nat_Z.
  lia.
Qed.

Lemma digits_shift (m : positive) (k : Z) (mz : positive) :
  0 <= k -> Zpos mz = Zpos m * 2 ^ k ->
  Zpos (digits2_pos mz) = Zpos (digits2_pos m) + k.
Proof.
  intros Hk Hmz. apply digits_unique.
  pose proof (digits2_pos_bounds m) as [Hl Hu].
  replace (Zpos (digits2_pos m) + k - 1) with (Zpos (digits2_pos m) - 1 + k)
    by lia.
  assert (0 < Zpos (digits2_pos m)) by lia.
  rewrite !Z.pow_add_r by lia.
  assert (0 < 2 ^ k) by (apply Z.pow_pos_nonneg; lia).
  rewrite Hmz. split; nia.
Qed.

(** [shl_align] multiplies the mantissa by the power of two that brings
    the exponent down to [ez]. *)
Lemma shl_align_down (m : positive) (e ez : Z) :
  ez <= e ->
  exists mz : positive,
    shl_align m e ez = (mz, ez) /\ Zpos mz = Zpos m * 2 ^ (e - ez).
Proof.
  intros H. unfold shl_align.
  destruct (ez - e) as [|d|d] eqn:Hd; try lia.
  - exists m. replace ez with e by lia. split; [reflexivity|].
    rewrite Z.sub_diag. lia.
  - exists (Pos.iter xO m d). split; [reflexivity|].
    rewrite iter_xO. replace (e - ez) with (Zpos d) by lia. reflexivity.
Qed.

Lemma shl_align_keep (m : positive) (e ez : Z) :
  e <= ez -> shl_align m e ez = (m, e).
Proof.
  intros H. unfold shl_align.
  destruct (ez - e) as [|d|d] eqn:Hd; try lia; reflexivity.
Qed.

(** [binary_round]: an exact left shift when the mantissa is short,
    otherwise the rounded division of [binary_round_aux]. *)
Lemma binary_round_frac (s : bool) (M : positive) (E : Z) :
  let e1 := fexp prec emax (Zpos (digits2_pos M) + E) in
  binary_round prec emax s M E =
  if E <=? e1 then
    finish s (nearest (Zpos M / 2 ^ (e1 - E)) (Zpos M mod 2 ^ (e1 - E))
                (2 ^ (e1 - E))) e1
  else finish s (Zpos M * 2 ^ (E - e1)) e1.
Proof.
  intros e1. unfold binary_round. fold e1.
  destruct (Z.leb_spec E e1) as [Hle|Hgt].
  - rewrite shl_align_keep by exact Hle.
    rewrite loc_exact, binary_round_aux_frac; fold e1; try lia.
    rewrite !Z.mul_1_r, Z.add_0_r. reflexivity.
  - destruct (shl_align_down M E e1) as (mz & -> & Hmz); [lia|].
    assert (Hdz : Zpos (digits2_pos mz) = Zpos (digits2_pos M) + (E - e1))
      by (apply (digits_shift M); [lia | exact Hmz]).
    assert (He1 : fexp prec emax (Zpos (digits2_pos mz) + e1) = e1).
    { rewrite Hdz. replace (Zpos (digits2_pos M) + (E - e1) + e1)
        with (Zpos (digits2_pos M) + E) by lia. reflexivity. }
    rewrite loc_exact, binary_round_aux_frac; rewrite ?He1; try lia.
    rewrite Z.sub_diag, Z.pow_0_r, Z.div_1_r, Z.mod_1_r.
    cbn [Z.mul Z.add]. rewrite nearest_exact, Hmz. reflexivity.
Qed.

(** ** Comparisons *)

Lemma compare_finite_pos (m1 m2 : positive) (e1 e2 : Z) :
  SFcompare (S754_finite false m1 e1) (S754_finite false m2 e2) =
  Some (match e1 ?= e2 with
        | Lt => Lt
        | Gt => Gt
        | Eq => (Zpos m1 ?= Zpos m2)
        end).
Proof. reflexivity. Qed.

Lemma flt_finite_pos (m1 m2 : positive) (e1 e2 : Z) :
  flt (S754_finite false m1 e1) (S754_finite false m2 e2) = true <->
  e1 < e2 \/ (e1 = e2 /\ Zpos m1 < Zpos m2).
Proof.
  unfold flt, SFltb. rewrite compare_finite_pos.
  destruct (Z.compare_spec e1 e2); destruct (Z.compare_spec (Zpos m1) (Zpos m2));
    split; intros; try discriminate; try reflexivity; lia.
Qed.

Lemma fle_finite_pos (m1 m2 : positive) (e1 e2 : Z) :
  fle (S754_finite false m1 e1) (S754_finite false m2 e2) = true <->
  e1 < e2 \/ (e1 = e2 /\ Zpos m1 <= Zpos m2).
Proof.
  unfold fle, SFleb. rewrite compare_finite_pos.
  destruct (Z.compare_spec e1 e2); destruct (Z.compare_spec (Zpos m1) (Zpos m2));
    split; intros; try discriminate; try reflexivity; lia.
Qed.

Lemma valid_finite (s : bool) (m : positive) (e : Z) :
  valid (S754_finite s m e) = true <->
  Z.max (Zpos (digits2_pos m) + e - 53) (-1074) = e /\ e <= 971.
Proof.
  unfold valid, valid_binary, bounded, canonical_mantissa.
  rewrite andb_true_iff, Z.eqb_eq, Z.leb_le, fexp_eq. reflexivity.
Qed.

(** A valid float with an exponent above the least one is normal. *)
Lemma valid_normal (s : bool) (m : positive) (e : Z) :
  valid (S754_finite s m e) = true -> -1074 < e ->
  2 ^ 52 <= Zpos m < 2 ^ 53.
Proof.
  intros Hv He. apply valid_finite in Hv as [Hc _].
  assert (Hd : Zpos (digits2_pos m) = 53) by lia.
  pose proof (digits2_pos_bounds m) as Hb. rewrite Hd in Hb. exact Hb.
Qed.

Lemma zoomable_bounds (z : float) :
  zoomable z <->
  valid z = true /\ fle f0_5 z = true /\ fle z f3_0 = true.
Proof.
  split.
  - intros (m & e & -> & Hm & He & H3).
    assert (Hd : Zpos (digits2_pos m) = 53) by (apply digits_unique; exact Hm).
    split; [|split].
    + apply valid_finite. lia.
    + apply fle_finite_pos. lia.
    + apply fle_finite_pos. lia.
  - intros (Hv & Hlo & Hhi).
    destruct z as [s|s| |s m e]; try discriminate.
    + destruct s; discriminate.
    + destruct s; [discriminate|].
      apply fle_finite_pos in Hlo. apply fle_finite_pos in Hhi.
      assert (Hm : 2 ^ 52 <= Zpos m < 2 ^ 53)
        by (apply (valid_normal false m e Hv); lia).
      exists m, e. repeat split; lia.
Qed.

(** A valid float that is at least 1.0 is plus infinity or a normal float
    with an exponent of at least -52. *)
Lemma at_least_one (f : float) :
  valid f = true -> fle f1_0 f = true ->
  f = S754_infinity false \/
  exists (m : positive) (e : Z),
    f = S754_finite false m e /\ 2 ^ 52 <= Zpos m < 2 ^ 53 /\ -52 <= e <= 971.
Proof.
  intros Hv H1. destruct f as [s|s| |s m e]; try discriminate.
  - destruct s; [discriminate | left; reflexivity].
  - destruct s; [discriminate|]. right.
    apply fle_finite_pos in H1.
    assert (Hm : 2 ^ 52 <= Zpos m < 2 ^ 53)
      by (apply (valid_normal false m e Hv); lia).
    apply valid_finite in Hv.
    exists m, e. repeat split; lia.
Qed.

(** A valid float that is at least zero is a zero, plus infinity or a
    positive finite float. *)
Lemma at_least_zero (f : float) :
  valid f = true -> fle f0 f = true ->
  (exists s : bool, f = S754_zero s) \/
  f = S754_infinity false \/
  exists (m : positive) (e : Z),
    f = S754_finite false m e /\
    Z.max (Zpos (digits2_pos m) + e - 53) (-1074) = e /\ e <= 971.
Proof.
  intros Hv H0. destruct f as [s|s| |s m e]; try discriminate.
  - left. exists s. reflexivity.
  - destruct s; [discriminate | right; left; reflexivity].
  - destruct s; [discriminate|]. right. right.
    apply valid_finite in Hv. exists m, e. repeat split; lia.
Qed.

Lemma min_zoomable (r : float) :
  at_least_half r -> zoomable (Py.min r f3_0).
Proof.
  assert (H3 : zoomable f3_0)
    by (exists 0x18000000000000%positive, (-51); repeat split; lia).
  unfold Py.min. intros [-> | (m & e & -> & Hm & He)].
  - exact H3.
  - destruct (flt f3_0 (S754_finite false m e)) eqn:Hlt; [exact H3|].
    assert (Hn : ~ (-51 < e \/ (-51 = e /\ 3 * 2 ^ 51 < Zpos m))).
    { intros Hc. apply (flt_finite_pos 0x18000000000000 m (-51) e) in Hc.
      unfold f3_0 in Hlt. congruence. }
    exists m, e. repeat split; lia.
Qed.

Lemma max_zoomable (r : float) :
  at_most_three r -> zoomable (Py.max r f0_5).
Proof.
  assert (Hh : zoomable f0_5)
    by (exists 0x10000000000000%positive, (-53); repeat split; lia).
  unfold Py.max, fgt.
  intros [(s & ->) | [(m & e & ->) | [-> | (m & e & -> & Hc & Hb)]]];
    try exact Hh.
  destruct (SFltb (S754_finite false m e) f0_5) eqn:Hlt; [exact Hh|].
  assert (Hn : ~ (e < -53 \/ (e = -53 /\ Zpos m < 2 ^ 52))).
  { intros Hx. apply (flt_finite_pos m 0x10000000000000 e (-53)) in Hx.
    unfold flt, f0_5 in Hx. unfold f0_5 in Hlt. congruence. }
  assert (-1074 < e) by lia. specialize (Hc H).
  exists m, e. repeat split; lia.
Qed.

(** ** What [finish] returns *)

Lemma finish_at_least_half (m1 e1 : Z) :
  2 ^ 52 <= m1 <= 2 ^ 53 -> -53 <= e1 ->
  at_least_half (finish false m1 e1).
Proof.
  intros Hm He. destruct m1 as [|p|p]; try lia.
  unfold finish, overflow_or, prec, emax.
  destruct (Z.ltb_spec (Zpos p) (2 ^ 53)).
  - destruct (e1 <=? 1024 - 53); [right | left; reflexivity].
    exists p, e1. repeat split; lia.
  - destruct (e1 + 1 <=? 1024 - 53); [right | left; reflexivity].
    exists (Z.to_pos (2 ^ (53 - 1))), (e1 + 1).
    repeat split; try lia; reflexivity.
Qed.

Lemma finish_at_most_three (m1 e1 : Z) :
  0 <= m1 <= 2 ^ 53 ->
  (-1074 < e1 -> 2 ^ 52 <= m1) ->
  e1 < -51 \/ (e1 = -51 /\ m1 <= 3 * 2 ^ 51) ->
  at_most_three (finish false m1 e1).
Proof.
  intros Hm Hc Hb. destruct m1 as [|p|p]; try lia.
  - left. exists false. reflexivity.
  - unfold finish, overflow_or, prec, emax.
    destruct (Z.ltb_spec (Zpos p) (2 ^ 53)).
    + replace (e1 <=? 1024 - 53) with true by (symmetry; apply Z.leb_le; lia).
      right. right. right. exists p, e1. repeat split; lia.
    + replace (e1 + 1 <=? 1024 - 53) with true
        by (symmetry; apply Z.leb_le; lia).
      right. right. right. exists (Z.to_pos (2 ^ (53 - 1))), (e1 + 1).
      split; [reflexivity|].
      change (Zpos (Z.to_pos (2 ^ (53 - 1)))) with (2 ^ 52). lia.
Qed.

Lemma finish_negative (m1 e1 : Z) : at_most_three (finish true m1 e1).
Proof.
  unfold finish, overflow_or.
  destruct m1 as [|p|p]; try (left; exists true; reflexivity).
  destruct (Zpos p <? 2 ^ prec);
    match goal with
    | |- context [if ?c then _ else _] => destruct c
    end;
    try (right; left; eexists; eexists; reflexivity);
    right; right; left; reflexivity.
Qed.

(** A mantissa of [d >= 53] digits divided by [2^(d-53)] has 53 digits. *)
Lemma shifted_normal (M : positive) (k : Z) :
  0 <= k -> k = Zpos (digits2_pos M) - 53 ->
  2 ^ 52 <= Zpos M / 2 ^ k < 2 ^ 53.
Proof.
  intros Hk Hd. split; [|apply shifted_small; lia].
  pose proof (digits2_pos_bounds M) as [Hl _].
  assert (Hp : 0 < 2 ^ k) by (apply Z.pow_pos_nonneg; lia).
  apply Z.div_le_lower_bound; [lia|].
  rewrite <- Z.pow_add_r by lia.
  replace (k + 52) with (Zpos (digits2_pos M) - 1) by lia. exact Hl.
Qed.

(** ** Addition, multiplication, subtraction, division of a zoom level *)

Lemma fadd_at_least_half (z s : float) :
  zoomable z -> valid s = true -> fle f0 s = true ->
  at_least_half (fadd z s).
Proof.
  intros (m & e & -> & Hm & He & _) Hv H0.
  assert (Hz : at_least_half (S754_finite false m e))
    by (right; exists m, e; repeat split; lia).
  destruct (at_least_zero s Hv H0)
    as [(sg & ->) | [-> | (ms & es & -> & Hc & Hes)]].
  - exact Hz.
  - left. reflexivity.
  - unfold fadd, SFadd. cbn [cond_Zopp].
    set (ez := Z.min e es).
    destruct (shl_align_down m e ez) as (a & -> & Ha); [unfold ez; lia|].
    destruct (shl_align_down ms es ez) as (b & -> & Hb); [unfold ez; lia|].
    cbn [fst Z.add binary_normalize].
    rewrite binary_round_frac.
    set (M := (a + b)%positive).
    assert (HM : Zpos M = Zpos m * 2 ^ (e - ez) + Zpos ms * 2 ^ (es - ez))
      by (unfold M; lia).
    assert (Hp : 0 < 2 ^ (e - ez))
      by (apply Z.pow_pos_nonneg; unfold ez; lia).
    assert (Hp' : 0 < 2 ^ (es - ez))
      by (apply Z.pow_pos_nonneg; unfold ez; lia).
    assert (Hd : 53 + (e - ez) <= Zpos (digits2_pos M)).
    { replace (53 + (e - ez)) with (52 + (e - ez) + 1) by lia.
      apply digits_lower. rewrite Z.pow_add_r by (unfold ez; lia). nia. }
    rewrite fexp_eq.
    set (e1 := Z.max (Zpos (digits2_pos M) + ez - 53) (-1074)).
    assert (He1 : e1 = Zpos (digits2_pos M) + ez - 53) by (unfold e1; lia).
    replace (ez <=? e1) with true by (symmetry; apply Z.leb_le; lia).
    pose proof (shifted_normal M (e1 - ez)) as Hq.
    pose proof (nearest_bounds (Zpos M / 2 ^ (e1 - ez))
                  (Zpos M mod 2 ^ (e1 - ez)) (2 ^ (e1 - ez))) as Hn.
    apply finish_at_least_half; lia.
Qed.

Lemma fmul_at_least_half (z f : float) :
  zoomable z -> valid f = true -> fle f1_0 f = true ->
  at_least_half (fmul z f).
Proof.
  intros (m & e & -> & Hm & He & _) Hv H1.
  destruct (at_least_one f Hv H1) as [-> | (mf & ef & -> & Hmf & Hef)].
  - left. reflexivity.
  - unfold fmul, SFmul. cbn [xorb].
    set (M := (m * mf)%positive).
    assert (HM : Zpos M = Zpos m * Zpos mf) by (unfold M; lia).
    assert (Hd : 105 <= Zpos (digits2_pos M)).
    { change 105 with (104 + 1). apply digits_lower.
      change (2 ^ 104) with (2 ^ 52 * 2 ^ 52). nia. }
    pose proof (binary_round_aux_frac false M (e + ef) 0 1) as Hr.
    cbv zeta in Hr. rewrite fexp_eq in Hr.
    set (e1 := Z.max (Zpos (digits2_pos M) + (e + ef) - 53) (-1074)) in Hr.
    assert (He1 : e1 = Zpos (digits2_pos M) + (e + ef) - 53)
      by (unfold e1; lia).
    rewrite loc_exact, Hr by lia.
    pose proof (shifted_normal M (e1 - (e + ef))) as Hq.
    match goal with
    | |- context [nearest ?q ?n ?d] => pose proof (nearest_bounds q n d) as Hn
    end.
    apply finish_at_least_half; lia.
Qed.

Lemma zoomable_at_most_three (z : float) : zoomable z -> at_most_three z.
Proof.
  intros (m & e & -> & Hm & He & H3). right. right. right.
  exists m, e. repeat split; lia.
Qed.

Lemma binary_round_negative (M : positive) (E : Z) :
  at_most_three (binary_round prec emax true M E).
Proof.
  rewrite binary_round_frac.
  match goal with
  | |- context [if ?c then _ else _] => destruct c
  end; apply finish_negative.
Qed.

Lemma fsub_at_most_three (z s : float) :
  zoomable z -> valid s = true -> fle f0 s = true ->
  at_most_three (fsub z s).
Proof.
  intros Hz Hv H0.
  pose proof (zoomable_at_most_three z Hz) as Hz3.
  destruct Hz as (m & e & -> & Hm & He & H3).
  destruct (at_least_zero s Hv H0)
    as [(sg & ->) | [-> | (ms & es & -> & Hc & Hes)]].
  - exact Hz3.
  - right. right. left. reflexivity.
  - unfold fsub, SFsub. cbn [cond_Zopp].
    set (ez := Z.min e es).
    destruct (shl_align_down m e ez) as (a & -> & Ha); [unfold ez; lia|].
    destruct (shl_align_down ms es ez) as (b & -> & Hb); [unfold ez; lia|].
    cbn [fst].
    assert (Hp : 0 < 2 ^ (e - ez))
      by (apply Z.pow_pos_nonneg; unfold ez; lia).
    destruct (Zpos a - Zpos b) as [|M|M] eqn:HM; cbn [binary_normalize].
    + left. exists false. reflexivity.
    + assert (Hlt : Zpos M < Zpos m * 2 ^ (e - ez)) by lia.
      assert (Hd : Zpos (digits2_pos M) <= 53 + (e - ez)).
      { apply digits_upper. rewrite Z.pow_add_r by (unfold ez; lia). nia. }
      rewrite binary_round_frac, fexp_eq.
      set (e1 := Z.max (Zpos (digits2_pos M) + ez - 53) (-1074)).
      assert (He1 : e1 <= e) by (unfold e1; lia).
      destruct (Z.leb_spec ez e1) as [Hle|Hgt].
      * (* the difference is rounded *)
        pose proof (shifted_small M (e1 - ez)) as Hq.
        assert (Hq0 : 0 <= Zpos M / 2 ^ (e1 - ez))
          by (apply Z.div_pos; [lia | apply Z.pow_pos_nonneg; lia]).
        pose proof (nearest_bounds (Zpos M / 2 ^ (e1 - ez))
                      (Zpos M mod 2 ^ (e1 - ez)) (2 ^ (e1 - ez))) as Hn.
        apply finish_at_most_three.
        -- unfold e1 in *. lia.
        -- intros Hnorm.
           pose proof (shifted_normal M (e1 - ez)) as Hq'.
           unfold e1 in *. lia.
        -- destruct (Z.eq_dec e1 (-51)) as [Heq|Hne]; [right | left; lia].
           split; [exact Heq|].
           assert (Hk : e1 - ez = e - ez) by lia.
           assert (Zpos M / 2 ^ (e1 - ez) < Zpos m).
           { rewrite Hk. apply Z.div_lt_upper_bound; lia. }
           lia.
      * (* the difference is exact *)
        assert (Hp1 : 0 < 2 ^ (ez - e1)) by (apply Z.pow_pos_nonneg; lia).
        assert (Hmz : exists mz, Zpos mz = Zpos M * 2 ^ (ez - e1)).
        { exists (Z.to_pos (Zpos M * 2 ^ (ez - e1))). rewrite Z2Pos.id; nia. }
        destruct Hmz as (mz & Hmz).
        pose proof (digits_shift M (ez - e1) mz) as Hdz.
        pose proof (digits2_pos_bounds mz) as Hbz.
        rewrite <- Hmz.
        assert (Hdz53 : Zpos (digits2_pos mz) <= 53) by (unfold e1 in *; lia).
        assert (Hlt53 : Zpos mz < 2 ^ 53).
        { assert (2 ^ Zpos (digits2_pos mz) <= 2 ^ 53)
            by (apply Z.pow_le_mono_r; lia). lia. }
        apply finish_at_most_three.
        -- lia.
        -- intros Hnorm.
           assert (Zpos (digits2_pos mz) = 53) by (unfold e1 in *; lia).
           replace (2 ^ 52) with (2 ^ (Zpos (digits2_pos mz) - 1))
             by (f_equal; lia).
           lia.
        -- left. unfold ez in *. lia.
    + apply binary_round_negative.
Qed.

(** ** Division *)

Lemma new_location_frac (m2 r : Z) :
  0 <= r < m2 -> new_location m2 r = loc_of_frac r m2.
Proof.
  intros Hr. unfold new_location, new_location_even, new_location_odd,
    loc_of_frac.
  destruct (Z.even m2) eqn:Heven; [reflexivity|].
  destruct (r =? 0); [reflexivity|].
  assert (Hodd : Z.odd m2 = true) by (rewrite <- Z.negb_even, Heven; reflexivity).
  apply Z.odd_spec in Hodd as (j & Hj).
  destruct (Z.compare_spec (2 * r + 1) m2);
    destruct (Z.compare_spec (2 * r) m2); try lia; reflexivity.
Qed.

(** The quotient of two finite floats before rounding. *)
Lemma fdiv_finite (sx sy : bool) (m mf : positive) (e ef : Z) :
  let e' :=
    Z.min (Z.max (Zpos (digits2_pos m) + e - (Zpos (digits2_pos mf) + ef) - 53)
                 (-1074))
          (e - ef) in
  let m' := Zpos m * 2 ^ (e - ef - e') in
  fdiv (S754_finite sx m e) (S754_finite sy mf ef) =
  binary_round_aux prec emax (xorb sx sy) (m' / Zpos mf) e'
    (loc_of_frac (m' mod Zpos mf) (Zpos mf)).
Proof.
  intros e' m'. unfold fdiv, SFdiv, SFdiv_core_binary. cbn [Zdigits2].
  rewrite fexp_eq. fold e'.
  assert (Hs : 0 <= e - ef - e') by (unfold e'; lia).
  assert (Hm' :
    match e - ef - e' with
    | Zpos _ => Z.shiftl (Zpos m) (e - ef - e')
    | Z0 => Zpos m
    | Zneg _ => 0
    end = m').
  { unfold m'. destruct (e - ef - e') as [|p|p] eqn:Hp; try lia.
    rewrite Z.shiftl_mul_pow2 by lia. reflexivity. }
  rewrite Hm'.
  unfold Z.div, Z.modulo.
  destruct (Z.div_eucl m' (Zpos mf)) as [q r] eqn:Hqr.
  assert (Hr : 0 <= r < Zpos mf).
  { pose proof (Z.mod_pos_bound m' (Zpos mf)) as H.
    unfold Z.modulo in H. rewrite Hqr in H. apply H. lia. }
  rewrite (new_location_frac _ _ Hr). reflexivity.
Qed.

Lemma fdiv_at_most_three (z f : float) :
  zoomable z -> valid f = true -> fle f1_0 f = true ->
  at_most_three (fdiv z f).
Proof.
  intros (m & e & -> & Hm & He & H3) Hv H1.
  destruct (at_least_one f Hv H1) as [-> | (mf & ef & -> & Hmf & Hef)].
  - left. exists false. reflexivity.
  - rewrite fdiv_finite. cbn [xorb].
    rewrite (digits_unique m 53), (digits_unique mf 53) by (simpl; lia).
    set (e' := Z.min _ _).
    assert (He' : e' = Z.max (e - ef - 53) (-1074)) by (unfold e'; lia).
    set (s := e - ef - e').
    assert (Hs : 50 <= s <= 53) by (unfold s; lia).
    assert (Hps : 0 < 2 ^ s) by (apply Z.pow_pos_nonneg; lia).
    assert (Hps1 : 2 ^ s = 2 * 2 ^ (s - 1)).
    { replace s with (Z.succ (s - 1)) at 1 by lia.
      apply Z.pow_succ_r. lia. }
    set (m' := Zpos m * 2 ^ s).
    assert (Hdm : m' = Zpos mf * (m' / Zpos mf) + m' mod Zpos mf)
      by (apply Z.div_mod; lia).
    assert (Hr : 0 <= m' mod Zpos mf < Zpos mf)
      by (apply Z.mod_pos_bound; lia).
    assert (Hql : 2 ^ (s - 1) <= m' / Zpos mf).
    { apply Z.div_le_lower_bound; [lia|]. unfold m'. nia. }
    assert (Hqu : m' / Zpos mf < 2 ^ (s + 1)).
    { apply Z.div_lt_upper_bound; [lia|].
      rewrite Z.pow_add_r by lia. unfold m'. nia. }
    destruct (m' / Zpos mf) as [|Q|Q] eqn:HQ; try lia.
    assert (Hdl : s <= Zpos (digits2_pos Q))
      by (replace s with (s - 1 + 1) by lia; apply digits_lower; lia).
    assert (Hdu : Zpos (digits2_pos Q) <= s + 1)
      by (apply digits_upper; lia).
    rewrite binary_round_aux_frac; rewrite ?fexp_eq; try lia.
    set (e1 := Z.max (Zpos (digits2_pos Q) + e' - 53) (-1074)).
    assert (He1 : e' <= e1) by (unfold e1; lia).
    set (k := e1 - e').
    pose proof (shifted_small Q k) as Hsmall.
    assert (Hq0 : 0 <= Zpos Q / 2 ^ k)
      by (apply Z.div_pos; [lia | apply Z.pow_pos_nonneg; unfold k; lia]).
    match goal with
    | |- context [nearest ?q ?n ?d] =>
        pose proof (nearest_bounds q n d) as Hn;
        pose proof (nearest_error q n d) as Herr;
        set (m1 := nearest q n d) in *
    end.
    apply finish_at_most_three.
    + unfold k, e1 in *. lia.
    + intros Hnorm. pose proof (shifted_normal Q k) as Hq'.
      unfold k, e1 in *. lia.
    + destruct (Z.eq_dec e1 (-51)) as [Heq|Hne];
        [right | left; unfold e1 in *; lia].
      split; [exact Heq|].
      assert (Hk : k = 1) by (unfold k, e1 in *; lia).
      assert (Hs53 : s = 53) by (unfold s, e1 in *; lia).
      assert (Hef52 : ef = -52) by (unfold e1 in *; lia).
      rewrite Hk in *. change (2 ^ 1) with 2 in *.
      assert (Hq2 : Zpos Q = 2 * (Zpos Q / 2) + Zpos Q mod 2)
        by (apply Z.div_mod; lia).
      assert (Hb2 : 0 <= Zpos Q mod 2 < 2) by (apply Z.mod_pos_bound; lia).
      set (b := Zpos Q mod 2) in *. set (h := Zpos Q / 2) in *.
      set (r := m' mod Zpos mf) in *.
      assert (Hfrac : 0 <= b * Zpos mf + r < 2 * Zpos mf).
      { assert (Hb : b = 0 \/ b = 1) by lia.
        destruct Hb as [-> | ->]; lia. }
      specialize (Herr Hfrac).
      assert (Hval : h * (2 * Zpos mf) + (b * Zpos mf + r) = m').
      { replace (h * (2 * Zpos mf) + (b * Zpos mf + r))
          with (Zpos mf * (2 * h + b) + r) by ring.
        rewrite <- Hq2. symmetry. exact Hdm. }
      rewrite Hval in Herr. unfold m' in Herr. rewrite Hs53 in Herr.
      destruct (Z.le_gt_cases m1 (Zpos m)) as [Hle|Hgt]; [lia|].
      exfalso.
      assert (H1m : 0 <= (m1 - Zpos m - 1) * Zpos mf)
        by (apply Z.mul_nonneg_nonneg; lia).
      assert (H2m : 0 <= Zpos m * (Zpos mf - 2 ^ 52))
        by (apply Z.mul_nonneg_nonneg; lia).
      change (2 ^ 53) with (2 * 2 ^ 52) in Herr.
      clear - Herr Hgt H1m H2m. lia.
Qed.

(** ** The factor 1.1 *)

(** The product of a normal float and 1.1: a normal mantissa [P], the
    number [kp] of bits rounded away, and the rounding error. *)
Lemma fmul_1_1 (m : positive) (e : Z) :
  2 ^ 52 <= Zpos m < 2 ^ 53 -> -1000 <= e <= 900 ->
  exists (P : positive) (kp : Z),
    (kp = 52 \/ kp = 53) /\
    2 ^ 52 <= Zpos P < 2 ^ 53 /\
    fmul (S754_finite false m e) f1_1 = S754_finite false P (e - 52 + kp) /\
    2 * Z.abs (Zpos P * 2 ^ kp - Zpos m * 0x1199999999999a) <= 2 ^ kp.
Proof.
  intros Hm He. unfold fmul, f1_1, SFmul. cbn [xorb].
  set (C := 0x1199999999999a%positive).
  set (M := (m * C)%positive).
  assert (HM : Zpos M = Zpos m * Zpos C) by (unfold M; lia).
  assert (HC : Zpos C = 0x1199999999999a) by reflexivity.
  assert (Hd : 105 <= Zpos (digits2_pos M) <= 106).
  { split.
    - change 105 with (104 + 1). apply digits_lower. lia.
    - apply digits_upper. lia. }
  pose proof (binary_round_aux_frac false M (e + -52) 0 1) as Hr.
  cbv zeta in Hr. rewrite fexp_eq in Hr.
  set (e1 := Z.max (Zpos (digits2_pos M) + (e + -52) - 53) (-1074)) in Hr.
  assert (He1 : e1 = Zpos (digits2_pos M) + (e + -52) - 53)
    by (unfold e1; lia).
  rewrite loc_exact, Hr by lia. clear Hr.
  set (k := e1 - (e + -52)).
  assert (Hk : k = Zpos (digits2_pos M) - 53) by (unfold k; lia).
  pose proof (shifted_normal M k) as Hq.
  assert (Hpk : 0 < 2 ^ k) by (apply Z.pow_pos_nonneg; lia).
  assert (Hdm : Zpos M = 2 ^ k * (Zpos M / 2 ^ k) + Zpos M mod 2 ^ k)
    by (apply Z.div_mod; lia).
  assert (Hmod : 0 <= Zpos M mod 2 ^ k < 2 ^ k)
    by (apply Z.mod_pos_bound; lia).
  rewrite !Z.mul_1_r, Z.add_0_r.
  pose proof (nearest_bounds (Zpos M / 2 ^ k) (Zpos M mod 2 ^ k) (2 ^ k)) as Hn.
  pose proof (nearest_error (Zpos M / 2 ^ k) (Zpos M mod 2 ^ k) (2 ^ k) Hmod)
    as Herr.
  set (mp := nearest _ _ _) in *.
  replace (Zpos M / 2 ^ k * 2 ^ k + Zpos M mod 2 ^ k) with (Zpos M) in Herr
    by lia.
  assert (Hmp : 2 ^ 52 <= mp <= 2 ^ 53) by lia.
  assert (Hkk : k = 52 \/ k = 53) by lia.
  destruct mp as [|p|p] eqn:Hp; try lia.
  unfold finish, overflow_or, prec, emax.
  destruct (Z.ltb_spec (Zpos p) (2 ^ 53)) as [Hlt|Hge].
  - replace (e1 <=? 1024 - 53) with true by (symmetry; apply Z.leb_le; lia).
    exists p, k. repeat split; try lia. f_equal. lia.
  - replace (e1 + 1 <=? 1024 - 53) with true
      by (symmetry; apply Z.leb_le; lia).
    assert (Hp53 : Zpos p = 2 ^ 53) by lia.
    destruct Hkk as [Hk52 | Hk53].
    + exists (Z.to_pos (2 ^ (53 - 1))), 53.
      change (Zpos (Z.to_pos (2 ^ (53 - 1)))) with (2 ^ 52).
      repeat split; try lia.
      * f_equal. lia.
      * rewrite Hk52, Hp53, HM, HC in Herr. lia.
    + exfalso. rewrite Hk53 in *.
      assert (Zpos M / 2 ^ 53 < Zpos C)
        by (apply Z.div_lt_upper_bound; lia).
      lia.
Qed.

(** The quotient of a normal float by 1.1: a normal mantissa [mq], the
    number [kq] of bits rounded away, and the rounding error. *)
Lemma fdiv_1_1 (P : positive) (eP : Z) :
  2 ^ 52 <= Zpos P < 2 ^ 53 -> -1000 <= eP <= 900 ->
  exists (mq : positive) (kq : Z),
    (kq = 0 \/ kq = 1) /\
    2 ^ 52 <= Zpos mq < 2 ^ 53 /\
    fdiv (S754_finite false P eP) f1_1 = S754_finite false mq (eP - 1 + kq) /\
    2 * Z.abs (Zpos mq * 2 ^ kq * 0x1199999999999a - Zpos P * 2 ^ 53)
      <= 2 ^ kq * 0x1199999999999a.
Proof.
  intros HP He. unfold f1_1. rewrite fdiv_finite. cbn [xorb].
  set (C := 0x1199999999999a%positive).
  assert (HC : Zpos C = 0x1199999999999a) by reflexivity.
  rewrite (digits_unique P 53) by (simpl; lia).
  replace (Zpos (digits2_pos C)) with 53 by reflexivity.
  set (e' := Z.min _ _).
  assert (He' : e' = eP - 1) by (unfold e'; lia).
  replace (eP - -52 - e') with 53 by lia.
  set (m' := Zpos P * 2 ^ 53).
  assert (Hdm : m' = Zpos C * (m' / Zpos C) + m' mod Zpos C)
    by (apply Z.div_mod; lia).
  assert (Hr : 0 <= m' mod Zpos C < Zpos C) by (apply Z.mod_pos_bound; lia).
  set (r := m' mod Zpos C) in *.
  assert (HQb : 2 ^ 52 <= m' / Zpos C < 2 ^ 54) by (unfold m' in *; lia).
  destruct (m' / Zpos C) as [|Q|Q] eqn:HQ; try lia.
  assert (Hdq : Zpos (digits2_pos Q) = 53 \/ Zpos (digits2_pos Q) = 54).
  { destruct (Z.lt_ge_cases (Zpos Q) (2 ^ 53)).
    - left. apply digits_unique. simpl; lia.
    - right. apply digits_unique. simpl; lia. }
  pose proof (digits2_pos_bounds Q) as HdQ.
  rewrite binary_round_aux_frac; rewrite ?fexp_eq; try lia.
  set (e1 := Z.max (Zpos (digits2_pos Q) + e' - 53) (-1074)).
  assert (He1 : e1 = Zpos (digits2_pos Q) + e' - 53) by (unfold e1; lia).
  set (k := e1 - e').
  assert (Hk : k = Zpos (digits2_pos Q) - 53) by (unfold k; lia).
  assert (Hpk : 0 < 2 ^ k) by (apply Z.pow_pos_nonneg; lia).
  assert (Hdk : Zpos Q = 2 ^ k * (Zpos Q / 2 ^ k) + Zpos Q mod 2 ^ k)
    by (apply Z.div_mod; lia).
  assert (Hmod : 0 <= Zpos Q mod 2 ^ k < 2 ^ k)
    by (apply Z.mod_pos_bound; lia).
  pose proof (shifted_normal Q k ltac:(lia) Hk) as Hq.
  set (h := Zpos Q / 2 ^ k) in *. set (b := Zpos Q mod 2 ^ k) in *.
  assert (Hfrac : 0 <= b * Zpos C + r < 2 ^ k * Zpos C).
  { split; [apply Z.add_nonneg_nonneg; [apply Z.mul_nonneg_nonneg|]; lia|].
    assert (b * Zpos C <= (2 ^ k - 1) * Zpos C)
      by (apply Z.mul_le_mono_nonneg_r; lia).
    lia. }
  pose proof (nearest_bounds h (b * Zpos C + r) (2 ^ k * Zpos C)) as Hn.
  pose proof (nearest_error h (b * Zpos C + r) (2 ^ k * Zpos C) Hfrac) as Herr.
  set (mq := nearest _ _ _) in *.
  assert (Hval : h * (2 ^ k * Zpos C) + (b * Zpos C + r) = Zpos P * 2 ^ 53).
  { replace (h * (2 ^ k * Zpos C) + (b * Zpos C + r))
      with (Zpos C * (2 ^ k * h + b) + r) by ring.
    rewrite <- Hdk. symmetry. exact Hdm. }
  rewrite Hval in Herr.
  assert (Hmq : 2 ^ 52 <= mq < 2 ^ 53).
  { split; [lia|].
    destruct Hdq as [Hd53 | Hd54].
    - assert (Hk0 : k = 0) by lia. rewrite Hk0 in *.
      change (2 ^ 0) with 1 in *. rewrite HC in *.
      unfold m' in *. clear - Hdm Hr Hdk Hmod Herr HP Hn Hq. lia.
    - assert (Hk1 : k = 1) by lia. rewrite Hk1 in *.
      change (2 ^ 1) with 2 in *. rewrite HC in *.
      unfold m' in *. clear - Hdm Hr Hdk Hmod HP Hn Hk1. lia. }
  destruct mq as [|p|p] eqn:Hp; try lia.
  unfold finish, overflow_or, prec, emax.
  replace (Zpos p <? 2 ^ 53) with true by (symmetry; apply Z.ltb_lt; lia).
  replace (e1 <=? 1024 - 53) with true by (symmetry; apply Z.leb_le; lia).
  exists p, k. replace (eP - 1 + k) with e1 by lia.
  repeat split; lia.
Qed.

(** Multiplying by 1.1 and dividing by 1.1 again moves a float between 0.5
    and 3.0 by at most one unit in the last place. *)
Lemma roundtrip_core (m : positive) (e : Z) :
  2 ^ 52 <= Zpos m < 2 ^ 53 -> -53 <= e <= -51 ->
  exists (mq : positive) (t : Z),
    fdiv (fmul (S754_finite false m e) f1_1) f1_1
      = S754_finite false mq (e + t) /\
    -1 <= t <= 1 /\
    2 ^ 52 <= Zpos mq < 2 ^ 53 /\
    Z.abs (Zpos mq * 2 ^ (t + 1) - 2 * Zpos m) <= 2.
Proof.
  intros Hm He.
  destruct (fmul_1_1 m e Hm) as (P & kp & Hkp & HP & -> & Hep); [lia|].
  destruct (fdiv_1_1 P (e - 52 + kp) HP) as (mq & kq & Hkq & Hmq & -> & Heq);
    [lia|].
  exists mq, (kp + kq - 53).
  split; [f_equal; lia|]. split; [lia|]. split; [exact Hmq|].
  destruct Hkp as [-> | ->]; destruct Hkq as [-> | ->];
    cbn [Z.add Z.sub Z.opp Z.pos_sub Pos.succ Pos.pred_double Pos.add] in *;
    lia.
Qed.

Lemma roundtrip_units (m mq : positive) (e t : Z) :
  -53 <= e -> -1 <= t <= 1 ->
  Z.abs (Zpos mq * 2 ^ (t + 1) - 2 * Zpos m) <= 2 ->
  Z.abs (units (S754_finite false mq (e + t)) - units (S754_finite false m e))
    <= ulp (S754_finite false m e).
Proof.
  intros He Ht H. cbn [units ulp cond_Zopp].
  set (X := 2 ^ (e + 1073)).
  assert (HX : 0 < X) by (apply Z.pow_pos_nonneg; lia).
  replace (e + 1074) with (1 + (e + 1073)) by lia.
  replace (e + t + 1074) with ((t + 1) + (e + 1073)) by lia.
  rewrite (Z.pow_add_r 2 1 (e + 1073)), (Z.pow_add_r 2 (t + 1) (e + 1073))
    by lia.
  fold X. change (2 ^ 1) with 2.
  replace (Zpos mq * (2 ^ (t + 1) * X) - Zpos m * (2 * X))
    with ((Zpos mq * 2 ^ (t + 1) - 2 * Zpos m) * X) by ring.
  rewrite Z.abs_mul, (Z.abs_eq X) by lia.
  apply Z.mul_le_mono_nonneg_r; lia.
Qed.

End Rounding.

(** * Navigation *)

Module Navigation.

Import Core Session.

Lemma truthy_pages (doc : Document) :
  truthy doc = true <-> 0 < Z.of_nat (page_count doc).
Proof.
  unfold truthy. destruct (page_count doc); simpl; split; intros; try lia; easy.
Qed.

Lemma open_truthy (self : PDFViewerCore) (doc : Document) :
  is_open self doc -> 0 < total_pages self ->
  has_truthy_document self = true.
Proof.
  intros [Hdoc Htot] Hpos. unfold has_truthy_document. rewrite Hdoc.
  apply truthy_pages. lia.
Qed.

Lemma go_to_page_succeeds (self : PDFViewerCore) (doc : Document) (n : Z) :
  is_open self doc ->
  1 <= n <= total_pages self ->
  go_to_page self n =
    ((true, None),
     mkCore (pdf_document self) (current_pdf_path self) n (total_pages self)
            (zoom_level self) 0 (page_height self) (scroll_threshold self)).
Proof.
  intros Hopen Hn. unfold go_to_page.
  rewrite (open_truthy self doc Hopen) by lia.
  replace (0 <? total_pages self) with true by (symmetry; apply Z.ltb_lt; lia).
  replace (1 <=? n) with true by (symmetry; apply Z.leb_le; lia).
  replace (n <=? total_pages self) with true by (symmetry; apply Z.leb_le; lia).
  reflexivity.
Qed.

Lemma next_page_advances (self : PDFViewerCore) (doc : Document) :
  is_open self doc ->
  1 <= current_page_num self < total_pages self ->
  next_page self =
    ((true, None),
     mkCore (pdf_document self) (current_pdf_path self)
            (current_page_num self + 1) (total_pages self)
            (zoom_level self) 0 (page_height self) (scroll_threshold self)).
Proof.
  intros Hopen Hc. unfold next_page.
  rewrite (open_truthy self doc Hopen) by lia.
  replace (current_page_num self <? total_pages self) with true
    by (symmetry; apply Z.ltb_lt; lia).
  simpl. apply (go_to_page_succeeds self doc); [exact Hopen | lia].
Qed.

Lemma next_page_at_end (self : PDFViewerCore) (doc : Document) :
  is_open self doc ->
  1 <= current_page_num self ->
  current_page_num self = total_pages self ->
  next_page self =
    ((false, Some "You are already on the last page."%string), self).
Proof.
  intros Hopen Hc Hlast. unfold next_page.
  rewrite (open_truthy self doc Hopen) by lia.
  replace (current_page_num self <? total_pages self) with false
    by (symmetry; apply Z.ltb_ge; lia).
  reflexivity.
Qed.

(** [k] calls of [next_page] that stay below the last page all succeed and
    move [k] pages forward, keeping document, page count and zoom. *)
Lemma repeat_next_page_advances (doc : Document) (k : nat) :
  forall self : PDFViewerCore,
  is_open self doc ->
  1 <= current_page_num self ->
  current_page_num self + Z.of_nat k <= total_pages self ->
  let '(rs, self') := repeat_next_page k self in
  rs = repeat (true, None) k /\
  is_open self' doc /\
  current_page_num self' = current_page_num self + Z.of_nat k /\
  zoom_level self' = zoom_level self.
Proof.
  induction k as [|k IH]; intros self Hopen Hc Hk.
  - simpl. repeat split; try apply Hopen. lia.
  - cbn [repeat_next_page].
    rewrite (next_page_advances self doc Hopen) by lia.
    set (self1 := mkCore _ _ _ _ _ _ _ _).
    assert (Hopen1 : is_open self1 doc) by (destruct Hopen; split; assumption).
    specialize (IH self1 Hopen1).
    assert (H1 : 1 <= current_page_num self1) by (simpl; lia).
    assert (H2 : current_page_num self1 + Z.of_nat k <= total_pages self1)
      by (simpl; lia).
    specialize (IH H1 H2).
    destruct (repeat_next_page k self1) as [rs self2].
    destruct IH as (Hrs & Hopen2 & Hcur & Hzoom).
    repeat split; try apply Hopen2.
    + simpl. now rewrite Hrs.
    + rewrite Hcur. simpl. lia.
    + rewrite Hzoom. reflexivity.
Qed.

(** C3. A load that succeeds stores the document, its page count, page 1
    and scroll offset 0 and keeps the zoom; a load that fails leaves the
    no-document defaults. *)
Theorem load_pdf_state (ext : External) (self : PDFViewerCore)
    (file_path : string) :
  let '((success, _), self') := load_pdf ext self file_path in
  let info := get_document_info self' in
  match fitz_open ext file_path with
  | Ok doc =>
      success = true /\
      info_has_document info = true /\
      pdf_document self' = Some doc /\
      info_total_pages info = Z.of_nat (page_count doc) /\
      info_current_page info = 1 /\
      scroll_position self' = 0 /\
      info_zoom_level info = zoom_level self
  | Raise _ =>
      success = false /\
      info_has_document info = false /\
      info_total_pages info = 0 /\
      info_current_page info = 0 /\
      info_zoom_level info = f1_0 /\
      scroll_position self' = 0 /\
      self' = reset_pdf_state self
  end.
Proof.
  unfold load_pdf. destruct (fitz_open ext file_path); simpl; repeat split.
Qed.

(** C4. With a document open and [1 <= n <= total_pages], [go_to_page n]
    succeeds, sets the current page to [n] and the scroll offset to 0, and
    changes no other field. *)
Theorem go_to_page_in_range (self : PDFViewerCore) (doc : Document) (n : Z) :
  is_open self doc ->
  1 <= n <= total_pages self ->
  let '(r, self') := go_to_page self n in
  r = (true, None) /\
  current_page_num self' = n /\
  scroll_position self' = 0 /\
  pdf_document self' = pdf_document self /\
  current_pdf_path self' = current_pdf_path self /\
  total_pages self' = total_pages self /\
  zoom_level self' = zoom_level self /\
  page_height self' = page_height self /\
  scroll_threshold self' = scroll_threshold self.
Proof.
  intros Hopen Hn. rewrite (go_to_page_succeeds self doc n Hopen Hn).
  simpl. repeat split.
Qed.

Lemma two_pages_open : is_open two_pages (mkDocument 2).
Proof. split; reflexivity. Qed.

Lemma go_to_page_in_range_witness :
  let '(r, self') := go_to_page two_pages 2 in
  r = (true, None) /\
  current_page_num self' = 2 /\
  scroll_position self' = 0 /\
  pdf_document self' = pdf_document two_pages /\
  current_pdf_path self' = current_pdf_path two_pages /\
  total_pages self' = total_pages two_pages /\
  zoom_level self' = zoom_level two_pages /\
  page_height self' = page_height two_pages /\
  scroll_threshold self' = scroll_threshold two_pages.
Proof.
  apply (go_to_page_in_range two_pages (mkDocument 2) 2).
  - exact two_pages_open.
  - simpl. lia.
Defined.

(** C5. Outside [1 .. total_pages], or with no document, [go_to_page]
    fails with a message and returns the state it was given. *)
Theorem go_to_page_out_of_range (self : PDFViewerCore) (n : Z) :
  n < 1 \/ total_pages self < n \/ pdf_document self = None ->
  exists msg : string, go_to_page self n = ((false, Some msg), self).
Proof.
  intros H. unfold go_to_page.
  destruct (has_truthy_document self && (0 <? total_pages self)) eqn:Hdoc.
  - destruct ((1 <=? n) && (n <=? total_pages self)) eqn:Hrange.
    + apply andb_true_iff in Hrange as [H1 H2].
      apply Z.leb_le in H1. apply Z.leb_le in H2.
      apply andb_true_iff in Hdoc as [Ht _].
      unfold has_truthy_document in Ht.
      destruct H as [H | [H | H]]; try lia.
      rewrite H in Ht. discriminate.
    + eexists. reflexivity.
  - eexists. reflexivity.
Qed.

Lemma go_to_page_out_of_range_witness :
  exists msg : string, go_to_page two_pages 3 = ((false, Some msg), two_pages).
Proof.
  apply (go_to_page_out_of_range two_pages 3). right. left. simpl. lia.
Defined.

(** C6. From page 1 of an open document with [N >= 1] pages, [N - 1] calls
    of [next_page] all succeed and end on page [N]; the next call fails
    with the last-page message and returns the state unchanged. *)
Theorem next_page_walk (self : PDFViewerCore) (doc : Document) :
  is_open self doc ->
  1 <= total_pages self ->
  current_page_num self = 1 ->
  let k := Z.to_nat (total_pages self - 1) in
  let '(rs, self') := repeat_next_page k self in
  rs = repeat (true, None) k /\
  current_page_num self' = total_pages self /\
  total_pages self' = total_pages self /\
  next_page self' =
    ((false, Some "You are already on the last page."%string), self').
Proof.
  intros Hopen Htot Hcur k.
  pose proof (repeat_next_page_advances doc k self Hopen) as H.
  assert (H1 : 1 <= current_page_num self) by lia.
  assert (H2 : current_page_num self + Z.of_nat k <= total_pages self)
    by (unfold k; lia).
  specialize (H H1 H2).
  destruct (repeat_next_page k self) as [rs self'].
  destruct H as (Hrs & Hopen' & Hcur' & _).
  assert (Htot' : total_pages self' = total_pages self).
  { destruct Hopen as [_ Ha]. destruct Hopen' as [_ Hb]. congruence. }
  assert (Hend : current_page_num self' = total_pages self)
    by (rewrite Hcur'; unfold k; lia).
  repeat split; try assumption.
  apply (next_page_at_end self' doc Hopen'); lia.
Qed.

Lemma next_page_walk_witness :
  let '(rs, self') := repeat_next_page 1 two_pages in
  rs = repeat (true, None) 1 /\
  current_page_num self' = total_pages two_pages /\
  total_pages self' = total_pages two_pages /\
  next_page self' =
    ((false, Some "You are already on the last page."%string), self').
Proof.
  apply (next_page_walk two_pages (mkDocument 2)).
  - exact two_pages_open.
  - simpl. lia.
  - reflexivity.
Defined.

(** C10. [get_page_pixmap] returns [None], without raising and without any
    change of state, when no document is loaded or the requested page is
    outside [1 .. total_pages]; and whatever it does, it leaves the document,
    the current page, the page count, the zoom and the scroll offset alone. *)
Theorem get_page_pixmap_total (ext : External) (self : PDFViewerCore)
    (page_num : option Z) :
  let n := match page_num with Some n => n | None => current_page_num self end in
  (pdf_document self = None \/ n < 1 \/ total_pages self < n ->
   get_page_pixmap ext self page_num = Ok (None, self)) /\
  (let self' := after_get_page_pixmap ext self page_num in
   pdf_document self' = pdf_document self /\
   current_page_num self' = current_page_num self /\
   total_pages self' = total_pages self /\
   zoom_level self' = zoom_level self /\
   scroll_position self' = scroll_position self).
Proof.
  intros n. split.
  - intros H. unfold get_page_pixmap.
    destruct (pdf_document self) as [doc|] eqn:Hdoc; [|reflexivity].
    destruct (negb (truthy doc)); [reflexivity|].
    fold n.
    replace ((0 <=? n - 1) && (n - 1 <? total_pages self)) with false;
      [reflexivity|].
    symmetry. apply andb_false_iff.
    destruct H as [H | [H | H]]; [discriminate | left | right].
    + apply Z.leb_gt. lia.
    + apply Z.ltb_ge. lia.
  - unfold after_get_page_pixmap, get_page_pixmap.
    destruct (pdf_document self) as [doc|] eqn:Hdoc;
      [|rewrite Hdoc; repeat split].
    destruct (negb (truthy doc)); [rewrite Hdoc; repeat split|].
    destruct ((0 <=? _) && _); [|rewrite Hdoc; repeat split].
    destruct (render ext doc _ (zoom_level self)); simpl;
      rewrite Hdoc; repeat split.
Qed.

End Navigation.

(** * More navigation *)

Module Walks.

Import Core Session Lifecycle.

Lemma prev_page_retreats (self : PDFViewerCore) (doc : Document) :
  is_open self doc ->
  1 < current_page_num self <= total_pages self ->
  prev_page self =
    ((true, None),
     mkCore (pdf_document self) (current_pdf_path self)
            (current_page_num self - 1) (total_pages self)
            (zoom_level self) 0 (page_height self) (scroll_threshold self)).
Proof.
  intros Hopen Hc. unfold prev_page.
  rewrite (Navigation.open_truthy self doc Hopen) by lia.
  replace (1 <? current_page_num self) with true
    by (symmetry; apply Z.ltb_lt; lia).
  simpl. apply (Navigation.go_to_page_succeeds self doc); [exact Hopen | lia].
Qed.

Lemma prev_page_at_start (self : PDFViewerCore) (doc : Document) :
  is_open self doc ->
  current_page_num self = 1 -> 1 <= total_pages self ->
  prev_page self =
    ((false, Some "You are already on the first page."%string), self).
Proof.
  intros Hopen Hc Htot. unfold prev_page.
  rewrite (Navigation.open_truthy self doc Hopen) by lia.
  replace (1 <? current_page_num self) with false
    by (symmetry; apply Z.ltb_ge; lia).
  reflexivity.
Qed.

Lemma repeat_prev_page_retreats (doc : Document) (k : nat) :
  forall self : PDFViewerCore,
  is_open self doc ->
  1 <= current_page_num self - Z.of_nat k ->
  current_page_num self <= total_pages self ->
  let '(rs, self') := repeat_prev_page k self in
  rs = repeat (true, None) k /\
  is_open self' doc /\
  current_page_num self' = current_page_num self - Z.of_nat k /\
  zoom_level self' = zoom_level self.
Proof.
  induction k as [|k IH]; intros self Hopen Hc Hk.
  - simpl. repeat split; try apply Hopen. lia.
  - cbn [repeat_prev_page].
    rewrite (prev_page_retreats self doc Hopen) by lia.
    set (self1 := mkCore _ _ _ _ _ _ _ _).
    assert (Hopen1 : is_open self1 doc) by (destruct Hopen; split; assumption).
    specialize (IH self1 Hopen1).
    assert (H1 : 1 <= current_page_num self1 - Z.of_nat k) by (simpl; lia).
    assert (H2 : current_page_num self1 <= total_pages self1) by (simpl; lia).
    specialize (IH H1 H2).
    destruct (repeat_prev_page k self1) as [rs self2].
    destruct IH as (Hrs & Hopen2 & Hcur & Hzoom).
    repeat split; try apply Hopen2.
    + simpl. now rewrite Hrs.
    + rewrite Hcur. simpl. lia.
    + rewrite Hzoom. reflexivity.
Qed.

(** X1. From the last page of an open document with [N >= 1] pages, [N - 1]
    calls of [prev_page] all succeed and end on page 1; the next call fails
    with the first-page message and returns the state unchanged. *)
Theorem prev_page_walk (self : PDFViewerCore) (doc : Document) :
  is_open self doc ->
  1 <= total_pages self ->
  current_page_num self = total_pages self ->
  let k := Z.to_nat (total_pages self - 1) in
  let '(rs, self') := repeat_prev_page k self in
  rs = repeat (true, None) k /\
  current_page_num self' = 1 /\
  total_pages self' = total_pages self /\
  prev_page self' =
    ((false, Some "You are already on the first page."%string), self').
Proof.
  intros Hopen Htot Hcur k.
  pose proof (repeat_prev_page_retreats doc k self Hopen) as H.
  assert (H1 : 1 <= current_page_num self - Z.of_nat k) by (unfold k; lia).
  assert (H2 : current_page_num self <= total_pages self) by lia.
  specialize (H H1 H2).
  destruct (repeat_prev_page k self) as [rs self'].
  destruct H as (Hrs & Hopen' & Hcur' & _).
  assert (Htot' : total_pages self' = total_pages self).
  { destruct Hopen as [_ Ha]. destruct Hopen' as [_ Hb]. congruence. }
  assert (Hstart : current_page_num self' = 1)
    by (rewrite Hcur'; unfold k; lia).
  repeat split; try assumption.
  apply (prev_page_at_start self' doc Hopen'); lia.
Qed.

Lemma prev_page_walk_witness :
  let '(rs, self') := repeat_prev_page 2 last_of_three in
  rs = repeat (true, None) 2 /\
  current_page_num self' = 1 /\
  total_pages self' = total_pages last_of_three /\
  prev_page self' =
    ((false, Some "You are already on the first page."%string), self').
Proof.
  apply (prev_page_walk last_of_three (mkDocument 3)).
  - split; reflexivity.
  - simpl. lia.
  - reflexivity.
Defined.

(** X2. On an open document, [next_page] followed by [prev_page] (below the
    last page) and [prev_page] followed by [next_page] (above the first)
    both succeed and come back to the same page; the state is the one
    before but for the scroll offset, which is 0. *)
Theorem next_prev_round_trip (self : PDFViewerCore) (doc : Document) :
  is_open self doc ->
  1 <= current_page_num self <= total_pages self ->
  let back := set_scroll_position 0 self in
  (current_page_num self < total_pages self ->
   fst (next_page self) = (true, None) /\
   prev_page (snd (next_page self)) = ((true, None), back)) /\
  (1 < current_page_num self ->
   fst (prev_page self) = (true, None) /\
   next_page (snd (prev_page self)) = ((true, None), back)).
Proof.
  intros Hopen Hc back. split; intros Hlt.
  - rewrite (Navigation.next_page_advances self doc Hopen) by lia.
    split; [reflexivity|]. cbn [snd].
    set (self1 := mkCore _ _ _ _ _ _ _ _).
    assert (Hopen1 : is_open self1 doc) by (destruct Hopen; split; assumption).
    rewrite (prev_page_retreats self1 doc Hopen1) by (simpl; lia).
    unfold back, set_scroll_position. simpl. repeat f_equal. lia.
  - rewrite (prev_page_retreats self doc Hopen) by lia.
    split; [reflexivity|]. cbn [snd].
    set (self1 := mkCore _ _ _ _ _ _ _ _).
    assert (Hopen1 : is_open self1 doc) by (destruct Hopen; split; assumption).
    rewrite (Navigation.next_page_advances self1 doc Hopen1) by (simpl; lia).
    unfold back, set_scroll_position. simpl. repeat f_equal. lia.
Qed.

Lemma next_prev_round_trip_witness :
  let back := set_scroll_position 0 middle_of_three in
  (current_page_num middle_of_three < total_pages middle_of_three ->
   fst (next_page middle_of_three) = (true, None) /\
   prev_page (snd (next_page middle_of_three)) = ((true, None), back)) /\
  (1 < current_page_num middle_of_three ->
   fst (prev_page middle_of_three) = (true, None) /\
   next_page (snd (prev_page middle_of_three)) = ((true, None), back)).
Proof.
  apply (next_prev_round_trip middle_of_three (mkDocument 3)).
  - split; reflexivity.
  - simpl. lia.
Defined.

Lemma go_to_page_coherent (self : PDFViewerCore) (n : Z) :
  coherent self -> coherent (snd (go_to_page self n)).
Proof.
  unfold go_to_page. intros H.
  destruct (has_truthy_document self && (0 <? total_pages self)) eqn:Hd;
    [|exact H].
  destruct ((1 <=? n) && (n <=? total_pages self)) eqn:Hn; [|exact H].
  apply andb_true_iff in Hn as [H1 H2].
  apply Z.leb_le in H1. apply Z.leb_le in H2.
  apply andb_true_iff in Hd as [Ht _].
  unfold has_truthy_document in Ht. unfold coherent in *.
  cbn [snd set_scroll_position set_current_page_num pdf_document
       total_pages current_page_num current_pdf_path scroll_position
       scroll_threshold].
  destruct (pdf_document self); [|discriminate]. intuition lia.
Qed.

Lemma exec_coherent (ext : External) (o : op) (self : PDFViewerCore) :
  coherent self -> coherent (exec ext o self).
Proof.
  intros H. destruct o as [p|n| | |f|f|f|f|]; cbn [exec].
  - unfold load_pdf. destruct (fitz_open ext p) as [doc|err]; cbn [snd].
    + destruct H as (_ & _ & Ht). unfold coherent. cbn.
      repeat split; try lia; try discriminate; try exact Ht.
    + destruct H as (_ & _ & Ht). unfold coherent. cbn. auto.
  - apply go_to_page_coherent, H.
  - unfold next_page.
    destruct (has_truthy_document self && _); [apply go_to_page_coherent, H|].
    destruct (has_truthy_document self); exact H.
  - unfold prev_page.
    destruct (has_truthy_document self && _); [apply go_to_page_coherent, H|].
    destruct (has_truthy_document self); exact H.
  - exact H.
  - exact H.
  - exact H.
  - unfold zoom_out_by_factor, truediv.
    destruct (is_zero f); cbn [bind]; exact H.
  - destruct H as (_ & _ & Ht). unfold coherent. cbn. auto.
Qed.

(** X3. Whatever calls are made on a fresh core, with whatever arguments and
    whatever the files contain: with no document stored the path, the
    current page and the page count are [None], 0 and 0; with one stored,
    [total_pages] is its length, the current page is at least 1 and, unless
    the document is empty, at most [total_pages]; and [scroll_position] is
    0 and [scroll_threshold] 100 throughout. *)
Theorem reachable_coherent (ext : External) (self : PDFViewerCore) :
  reachable ext self -> coherent self.
Proof.
  induction 1 as [|self o Hreach IH _].
  - unfold coherent. cbn. auto.
  - apply exec_coherent, IH.
Qed.

Lemma reachable_coherent_witness :
  coherent
    (run (all_files_have 0)
         [ZoomInByFactor f0_25; Load "empty.pdf"%string; NextPage;
          GoToPage 7] init).
Proof.
  apply (reachable_coherent (all_files_have 0)).
  unfold run. cbn [fold_left].
  repeat (apply reach_exec; [| exact I]). apply reach_init.
Defined.

(** X4. After [reset_pdf_state], and after a [load_pdf] that failed,
    [go_to_page], [next_page] and [prev_page] all answer
    "No PDF document loaded." and [get_page_pixmap] answers [None], each
    leaving the state as it is. *)
Theorem nothing_loaded (ext : External) (self0 : PDFViewerCore)
    (file_path : string) (n : Z) (page_num : option Z) :
  forall self : PDFViewerCore,
  self = reset_pdf_state self0 \/
  (fst (fst (load_pdf ext self0 file_path)) = false /\
   self = snd (load_pdf ext self0 file_path)) ->
  go_to_page self n = ((false, Some "No PDF document loaded."%string), self) /\
  next_page self = ((false, Some "No PDF document loaded."%string), self) /\
  prev_page self = ((false, Some "No PDF document loaded."%string), self) /\
  get_page_pixmap ext self page_num = Ok (None, self) /\
  get_document_info self = mkInfo 0 0 f1_0 None false.
Proof.
  intros self H.
  assert (Hs : self = reset_pdf_state self0).
  { destruct H as [H | [Hf H]]; [exact H|].
    unfold load_pdf in *. destruct (fitz_open ext file_path);
      [discriminate Hf | exact H]. }
  rewrite Hs. repeat split.
Qed.

Lemma nothing_loaded_witness :
  let self := snd (load_pdf no_file_opens two_pages "x.pdf"%string) in
  go_to_page self 1 = ((false, Some "No PDF document loaded."%string), self) /\
  next_page self = ((false, Some "No PDF document loaded."%string), self) /\
  prev_page self = ((false, Some "No PDF document loaded."%string), self) /\
  get_page_pixmap no_file_opens self None = Ok (None, self) /\
  get_document_info self = mkInfo 0 0 f1_0 None false.
Proof.
  apply (nothing_loaded no_file_opens two_pages "x.pdf"%string 1 None).
  right. split; reflexivity.
Defined.

End Walks.

(** * Zoom *)

Module Zoom.

Import Core Session Round Rounding.

Lemma fle_half_not_below (x : float) :
  fle f0_5 x = true -> flt x f0_5 = false.
Proof.
  destruct x as [s|s| |s m e]; try discriminate.
  - destruct s; [discriminate | reflexivity].
  - destruct s; [discriminate|]. intros H.
    apply fle_finite_pos in H.
    destruct (flt (S754_finite false m e) f0_5) eqn:Hlt; [|reflexivity].
    apply flt_finite_pos in Hlt. lia.
Qed.

Lemma fle_three_not_above (x : float) :
  fle x f3_0 = true -> flt f3_0 x = false.
Proof.
  destruct x as [s|s| |s m e]; try discriminate.
  - destruct s; reflexivity.
  - destruct s; [reflexivity | discriminate].
  - destruct s; [reflexivity|]. intros H.
    apply fle_finite_pos in H.
    destruct (flt f3_0 (S754_finite false m e)) eqn:Hlt; [|reflexivity].
    apply flt_finite_pos in Hlt. lia.
Qed.

Lemma flt_fle (a b : float) : flt a b = true -> fle a b = true.
Proof.
  unfold flt, fle, SFltb, SFleb.
  destruct (SFcompare a b) as [[| |]|]; intros; try discriminate; reflexivity.
Qed.

Lemma at_least_half_not_below (r : float) :
  at_least_half r -> flt r f0_5 = false.
Proof.
  intros [-> | (m & e & -> & Hm & He)]; [reflexivity|].
  destruct (flt (S754_finite false m e) f0_5) eqn:Hlt; [|reflexivity].
  apply flt_finite_pos in Hlt. lia.
Qed.

Lemma at_most_three_not_above (r : float) :
  at_most_three r -> flt f3_0 r = false.
Proof.
  intros [(s & ->) | [(m & e & ->) | [-> | (m & e & -> & Hc & Hb)]]];
    try reflexivity.
  destruct (flt f3_0 (S754_finite false m e)) eqn:Hlt; [|reflexivity].
  apply flt_finite_pos in Hlt. lia.
Qed.

(** [min(x, 3.0)] is the clamp of a value that is not below 0.5, and
    [max(x, 0.5)] the clamp of a value that is not above 3.0. *)
Lemma min_is_clamp (x : float) :
  flt x f0_5 = false -> Py.min x f3_0 = clamp x f0_5 f3_0.
Proof. intros H. unfold Py.min, clamp. rewrite H. reflexivity. Qed.

Lemma max_is_clamp (x : float) :
  flt f3_0 x = false -> Py.max x f0_5 = clamp x f0_5 f3_0.
Proof.
  intros H. unfold Py.max, clamp, fgt. fold (flt x f0_5). rewrite H.
  reflexivity.
Qed.

Lemma positive_not_zero (f : float) : flt f0 f = true -> is_zero f = false.
Proof. destruct f; try reflexivity. discriminate. Qed.

(** C2. For a zoom in [0.5, 3.0] and a factor above zero both calls
    succeed; [zoom_in_by_factor] stores [min(zoom * factor, 3.0)] and
    [zoom_out_by_factor] stores [max(zoom / factor, 0.5)].  These are the
    clamp into [0.5, 3.0] when the product is not below 0.5 and the quotient
    not above 3.0, which is the case for every factor from 1.0 on. *)
Theorem zoom_by_factor_clamp (self : PDFViewerCore) (factor : float) :
  let z := zoom_level self in
  valid z = true -> fle f0_5 z = true -> fle z f3_0 = true ->
  valid factor = true -> flt f0 factor = true ->
  zoom_in_by_factor self factor =
    (true, set_zoom_level (Py.min (fmul z factor) f3_0) self) /\
  zoom_out_by_factor self factor =
    Ok (true, set_zoom_level (Py.max (fdiv z factor) f0_5) self) /\
  (fle f0_5 (fmul z factor) = true ->
   Py.min (fmul z factor) f3_0 = clamp (fmul z factor) f0_5 f3_0) /\
  (fle (fdiv z factor) f3_0 = true ->
   Py.max (fdiv z factor) f0_5 = clamp (fdiv z factor) f0_5 f3_0) /\
  (fle f1_0 factor = true ->
   Py.min (fmul z factor) f3_0 = clamp (fmul z factor) f0_5 f3_0 /\
   Py.max (fdiv z factor) f0_5 = clamp (fdiv z factor) f0_5 f3_0).
Proof.
  intros z Hv Hlo Hhi Hvf Hpos.
  assert (Hz : zoomable z) by (apply zoomable_bounds; auto).
  split; [reflexivity|]. split.
  { unfold zoom_out_by_factor, truediv.
    rewrite (positive_not_zero factor Hpos). reflexivity. }
  split; [intros H; apply min_is_clamp, fle_half_not_below, H|].
  split; [intros H; apply max_is_clamp, fle_three_not_above, H|].
  intros H1. split.
  - apply min_is_clamp, at_least_half_not_below, fmul_at_least_half; auto.
  - apply max_is_clamp, at_most_three_not_above, fdiv_at_most_three; auto.
Qed.

Lemma zoom_by_factor_clamp_witness :
  zoom_in_by_factor two_pages f1_1 =
    (true, set_zoom_level (Py.min (fmul f1_0 f1_1) f3_0) two_pages) /\
  zoom_out_by_factor two_pages f1_1 =
    Ok (true, set_zoom_level (Py.max (fdiv f1_0 f1_1) f0_5) two_pages) /\
  (fle f0_5 (fmul f1_0 f1_1) = true ->
   Py.min (fmul f1_0 f1_1) f3_0 = clamp (fmul f1_0 f1_1) f0_5 f3_0) /\
  (fle (fdiv f1_0 f1_1) f3_0 = true ->
   Py.max (fdiv f1_0 f1_1) f0_5 = clamp (fdiv f1_0 f1_1) f0_5 f3_0) /\
  (fle f1_0 f1_1 = true ->
   Py.min (fmul f1_0 f1_1) f3_0 = clamp (fmul f1_0 f1_1) f0_5 f3_0 /\
   Py.max (fdiv f1_0 f1_1) f0_5 = clamp (fdiv f1_0 f1_1) f0_5 f3_0).
Proof.
  apply (zoom_by_factor_clamp two_pages f1_1); reflexivity.
Defined.

(** With the factor 0.25, which is above zero, [zoom_in_by_factor] takes
    the zoom 1.0 to 0.25 and [zoom_out_by_factor] takes it to 4.0, where the
    clamp into [0.5, 3.0] is 0.5 and 3.0. *)
Lemma zoom_by_factor_clamp_counterexample :
  valid f0_25 = true /\ flt f0 f0_25 = true /\
  fle f0_5 (zoom_level init) = true /\ fle (zoom_level init) f3_0 = true /\
  zoom_level (snd (zoom_in_by_factor init f0_25)) = f0_25 /\
  clamp (fmul (zoom_level init) f0_25) f0_5 f3_0 = f0_5 /\
  zoom_out_by_factor init f0_25 =
    Ok (true, set_zoom_level (S754_finite false 0x10000000000000 (-50)) init) /\
  clamp (fdiv (zoom_level init) f0_25) f0_5 f3_0 = f3_0.
Proof. repeat split. Qed.

(** ** The session invariant *)

Lemma zoomable_one : zoomable f1_0.
Proof. exists 0x10000000000000%positive, (-52). repeat split; lia. Qed.

Lemma go_to_page_zoom (self : PDFViewerCore) (n : Z) :
  zoom_level (snd (go_to_page self n)) = zoom_level self.
Proof.
  unfold go_to_page.
  destruct (has_truthy_document self && (0 <? total_pages self));
    [|reflexivity].
  destruct ((1 <=? n) && (n <=? total_pages self)); reflexivity.
Qed.

Lemma next_page_zoom (self : PDFViewerCore) :
  zoom_level (snd (next_page self)) = zoom_level self.
Proof.
  unfold next_page.
  destruct (has_truthy_document self && _); [apply go_to_page_zoom|].
  destruct (has_truthy_document self); reflexivity.
Qed.

Lemma prev_page_zoom (self : PDFViewerCore) :
  zoom_level (snd (prev_page self)) = zoom_level self.
Proof.
  unfold prev_page.
  destruct (has_truthy_document self && _); [apply go_to_page_zoom|].
  destruct (has_truthy_document self); reflexivity.
Qed.

(** A call whose zoom arguments go forward keeps the zoom among the normal
    floats between 0.5 and 3.0, whatever the files hold. *)
Lemma exec_zoomable (ext : External) (o : op) (self : PDFViewerCore) :
  zooms_forward o ->
  zoomable (zoom_level self) -> zoomable (zoom_level (exec ext o self)).
Proof.
  intros Ho Hz. destruct o as [p|n| | |f|f|f|f|]; cbn [exec zooms_forward] in *.
  - unfold load_pdf. destruct (fitz_open ext p) as [doc|err]; cbn [snd].
    + exact Hz.
    + exact zoomable_one.
  - rewrite go_to_page_zoom. exact Hz.
  - rewrite next_page_zoom. exact Hz.
  - rewrite prev_page_zoom. exact Hz.
  - destruct Ho as [Hv H0].
    apply min_zoomable, fadd_at_least_half; assumption.
  - destruct Ho as [Hv H0].
    apply max_zoomable, fsub_at_most_three; assumption.
  - destruct Ho as [Hv H1].
    apply min_zoomable, fmul_at_least_half; assumption.
  - destruct Ho as [Hv H1]. unfold zoom_out_by_factor, truediv.
    destruct (is_zero f); cbn [bind]; [assumption|].
    apply max_zoomable, fdiv_at_most_three; assumption.
  - exact zoomable_one.
Qed.

Lemma run_zoomable (ext : External) (ops : list op) (start : PDFViewerCore) :
  Forall zooms_forward ops ->
  zoomable (zoom_level start) -> zoomable (zoom_level (run ext ops start)).
Proof.
  unfold run. intros Hops. revert start.
  induction Hops as [|o ops Ho _ IH]; intros start Hz; cbn [fold_left].
  - exact Hz.
  - apply IH, exec_zoomable; assumption.
Qed.

Lemma reachable_zoomable (ext : External) (self : PDFViewerCore) :
  reachable_by ext zooms_forward self -> zoomable (zoom_level self).
Proof.
  induction 1 as [|self o Hreach IH Ho].
  - exact zoomable_one.
  - apply exec_zoomable; assumption.
Qed.

(** Whatever the calls and their arguments, the page fields stay as
    [Lifecycle.coherent] says. *)
Lemma reachable_fields (ext : External) (self : PDFViewerCore) :
  reachable ext self -> Lifecycle.coherent self.
Proof.
  induction 1 as [|self o Hreach IH _].
  - unfold Lifecycle.coherent. cbn. auto.
  - apply Walks.exec_coherent, IH.
Qed.

(** C1. The two halves of the invariant, each under the one condition it
    needs.  Pages: in every state reached from a fresh core, by any calls
    with any arguments, an open document that has at least one page has
    [1 <= current_page_num <= total_pages].  Zoom: in every state reached
    by calls whose zoom steps are not negative and whose zoom factors are
    at least one, with any files, the zoom is in [0.5, 3.0]; and from any
    state whose zoom is in [0.5, 3.0], such calls keep it there. *)
Theorem session_invariant (ext : External) :
  (forall self : PDFViewerCore,
     reachable ext self ->
     (forall doc : Document,
        pdf_document self = Some doc -> page_count doc <> O) ->
     page_invariant self) /\
  (forall self : PDFViewerCore,
     reachable_by ext zooms_forward self -> zoom_invariant self) /\
  (forall (start : PDFViewerCore) (ops : list op),
     valid (zoom_level start) = true -> zoom_invariant start ->
     Forall zooms_forward ops ->
     zoom_invariant (run ext ops start)).
Proof.
  split; [|split].
  - intros self Hreach Hpages.
    destruct (reachable_fields ext self Hreach) as [Hc _].
    unfold page_invariant, get_document_info. cbn [info_has_document].
    destruct (pdf_document self) as [doc|]; [intros _ | discriminate].
    specialize (Hpages doc eq_refl).
    destruct Hc as (_ & Htot & Hlow & Hup). lia.
  - intros self Hreach.
    pose proof (reachable_zoomable ext self Hreach) as Hz.
    apply zoomable_bounds in Hz. unfold zoom_invariant. tauto.
  - intros start ops Hv [Hlo Hhi] Hops.
    assert (Hz : zoomable (zoom_level start))
      by (apply zoomable_bounds; auto).
    pose proof (run_zoomable ext ops start Hops Hz) as Hz'.
    apply zoomable_bounds in Hz'. unfold zoom_invariant. tauto.
Qed.

Lemma session_invariant_witness :
  page_invariant
    (run (all_files_have 3)
         [Load "a.pdf"%string; NextPage; ZoomInByFactor f0_25] init) /\
  zoom_invariant
    (run (all_files_have 0)
         [Load "empty.pdf"%string; ZoomIn f0_1; ZoomOutByFactor f1_1] init) /\
  zoom_invariant
    (run (all_files_have 0) [ResetPdfState; ZoomIn f0_1]
         (run (all_files_have 0) [ZoomInByFactor f0_25; ZoomIn f0_5] init)).
Proof.
  destruct (session_invariant (all_files_have 3)) as (Hpage & _ & _).
  destruct (session_invariant (all_files_have 0)) as (_ & Hzoom & Hkept).
  split; [|split].
  - apply Hpage.
    + unfold run. cbn [fold_left].
      repeat (apply reach_exec; [| exact I]). apply reach_init.
    + intros doc H. injection H as <-. discriminate.
  - apply Hzoom. unfold run. cbn [fold_left].
    repeat (apply reach_exec; [| cbn; first [exact I | split; reflexivity]]).
    apply reach_init.
  - apply Hkept.
    + reflexivity.
    + split; reflexivity.
    + repeat constructor.
Defined.

(** Sessions that break the invariant as the specification states it.  A
    zoom-in by the factor 0.25 leaves the zoom at 0.25 and a zoom-out by it
    at 4.0; a zoom-in by the step -1.0 leaves the zoom at 0.0 and a
    zoom-out by the step -3.0 at 4.0.  Loading a document without pages
    leaves page 1 of 0 with a document stored. *)
Lemma session_invariant_counterexample :
  (forall o : op,
     In o [ZoomInByFactor f0_25; ZoomOutByFactor f0_25;
           ZoomIn (fopp f1_0); ZoomOut (fopp f3_0)] ->
     let self := exec (all_files_have 3) o init in
     reachable (all_files_have 3) self /\ ~ zoom_invariant self) /\
  zoom_level (exec (all_files_have 3) (ZoomInByFactor f0_25) init) = f0_25 /\
  zoom_level (exec (all_files_have 3) (ZoomOutByFactor f0_25) init)
    = of_int 4 /\
  zoom_level (exec (all_files_have 3) (ZoomIn (fopp f1_0)) init) = f0 /\
  zoom_level (exec (all_files_have 3) (ZoomOut (fopp f3_0)) init)
    = of_int 4 /\
  (let self := exec (all_files_have 0) (Load "empty.pdf"%string) init in
   reachable (all_files_have 0) self /\ ~ page_invariant self).
Proof.
  split; [|repeat split].
  - intros o Ho. split.
    + apply reach_exec; [apply reach_init | exact I].
    + cbn [In] in Ho.
      destruct Ho as [<- | [<- | [<- | [<- | []]]]]; intros [Hlo Hhi];
        first [discriminate Hlo | discriminate Hhi].
  - apply reach_exec; [apply reach_init | exact I].
  - intros H. specialize (H eq_refl). cbn in H. lia.
Qed.

(** ** Zooming in and out again by 1.1 *)

(** The literals are the binary64 floats nearest to the decimal fractions
    they are written as. *)
Lemma literals_nearest :
  f0_05 = fdiv (of_int 5) (of_int 100) /\
  f0_1 = fdiv (of_int 1) (of_int 10) /\
  f0_5 = fdiv (of_int 5) (of_int 10) /\
  f1_0 = of_int 1 /\
  f1_1 = fdiv (of_int 11) (of_int 10) /\
  f3_0 = of_int 3.
Proof. repeat split. Qed.

Lemma roundtrip_neighbours (m : positive) (e : Z) :
  2 ^ 52 <= Zpos m < 2 ^ 53 -> -53 <= e <= -51 ->
  let z := S754_finite false m e in
  let r := fdiv (fmul z f1_1) f1_1 in
  r = z \/ r = next_up z \/ r = next_down z.
Proof.
  intros Hm He z r.
  destruct (Z.eq_dec (Zpos m) (2 ^ 52)) as [Hpow | Hpow].
  - assert (Hmp : m = 0x10000000000000%positive) by lia.
    assert (Hee : e = -53 \/ e = -52 \/ e = -51) by lia.
    left. unfold r, z. rewrite Hmp.
    destruct Hee as [-> | [-> | ->]]; vm_compute; reflexivity.
  - destruct (roundtrip_core m e Hm He) as (mq & t & Hq & Ht & Hmq & Herr).
    unfold r, z. rewrite Hq. cbn [next_up next_down].
    assert (Htt : t = -1 \/ t = 0 \/ t = 1) by lia.
    destruct Htt as [-> | [-> | ->]].
    + change (2 ^ (-1 + 1)) with 1 in Herr. lia.
    + change (2 ^ (0 + 1)) with 2 in Herr. rewrite Z.add_0_r.
      assert (Hc : Zpos mq = Zpos m \/ Zpos mq = Zpos m + 1 \/
                   Zpos mq = Zpos m - 1) by lia.
      destruct Hc as [Hc | [Hc | Hc]].
      * left. f_equal. lia.
      * right. left.
        replace (Zpos m + 1 =? 2 ^ 53) with false
          by (symmetry; apply Z.eqb_neq; lia).
        f_equal. lia.
      * right. right.
        replace (Zpos m =? 2 ^ 52) with false
          by (symmetry; apply Z.eqb_neq; lia).
        f_equal. lia.
    + change (2 ^ (1 + 1)) with 4 in Herr.
      right. left.
      replace (Zpos m + 1 =? 2 ^ 53) with true
        by (symmetry; apply Z.eqb_eq; lia).
      f_equal. lia.
Qed.

(** C9. From a zoom strictly between 0.5 and 3.0 whose product with 1.1
    is at most 3.0 and comes back to at least 0.5, [zoom_in_by_factor(1.1)]
    and then [zoom_out_by_factor(1.1)] succeed and leave the zoom they
    started from, or the next float above it, or the next float below it;
    so the two differ by at most one unit in the last place. *)
Theorem zoom_round_trip (self : PDFViewerCore) :
  let z := zoom_level self in
  valid z = true -> flt f0_5 z = true -> flt z f3_0 = true ->
  fle (fmul z f1_1) f3_0 = true ->
  fle f0_5 (fdiv (fmul z f1_1) f1_1) = true ->
  exists self1 self2 : PDFViewerCore,
    zoom_in_by_factor self f1_1 = (true, self1) /\
    zoom_out_by_factor self1 f1_1 = Ok (true, self2) /\
    (zoom_level self2 = z \/ zoom_level self2 = next_up z \/
     zoom_level self2 = next_down z) /\
    Z.abs (units (zoom_level self2) - units z) <= ulp z.
Proof.
  intros z Hv Hlo Hhi Hin Hout.
  assert (Hz : zoomable z)
    by (apply zoomable_bounds; repeat split; auto using flt_fle).
  destruct Hz as (m & e & Hze & Hm & He & _).
  pose proof (roundtrip_neighbours m e Hm He) as Hnb.
  destruct (roundtrip_core m e Hm He) as (mq & t & Hq & Ht & _ & Herr).
  unfold zoom_in_by_factor, zoom_out_by_factor. fold z.
  rewrite Hze in *.
  eexists. eexists. split; [reflexivity|].
  cbn [zoom_level set_zoom_level].
  unfold Py.min at 1. rewrite (fle_three_not_above _ Hin).
  unfold truediv.
  assert (Hnz : is_zero f1_1 = false) by reflexivity.
  rewrite Hnz. cbn [bind].
  split; [reflexivity|].
  cbn [zoom_level set_zoom_level].
  unfold Py.max, fgt. fold (flt (fdiv (fmul (S754_finite false m e) f1_1) f1_1) f0_5).
  rewrite (fle_half_not_below _ Hout).
  split; [exact Hnb|].
  rewrite Hq. apply roundtrip_units; lia.
Qed.

Lemma zoom_round_trip_witness :
  exists self1 self2 : PDFViewerCore,
    zoom_in_by_factor two_pages f1_1 = (true, self1) /\
    zoom_out_by_factor self1 f1_1 = Ok (true, self2) /\
    (zoom_level self2 = zoom_level two_pages \/
     zoom_level self2 = next_up (zoom_level two_pages) \/
     zoom_level self2 = next_down (zoom_level two_pages)) /\
    Z.abs (units (zoom_level self2) - units (zoom_level two_pages))
      <= ulp (zoom_level two_pages).
Proof.
  apply (zoom_round_trip two_pages); reflexivity.
Defined.

(** The zoom 1.875 is strictly inside (0.5, 3.0) and neither step clamps,
    yet the two calls return the next float below 1.875.  The same happens
    at the zoom that nine default [zoom_in()] calls reach from 1.0. *)
Lemma zoom_round_trip_counterexample :
  (let self := set_zoom_level f1_875 init in
   let z := zoom_level self in
   valid z = true /\ flt f0_5 z = true /\ flt z f3_0 = true /\
   fle (fmul z f1_1) f3_0 = true /\
   fle f0_5 (fdiv (fmul z f1_1) f1_1) = true /\
   zoom_out_by_factor (snd (zoom_in_by_factor self f1_1)) f1_1 =
     Ok (true, set_zoom_level (S754_finite false 0x1dffffffffffff (-52)) self) /\
   S754_finite false 0x1dffffffffffff (-52) <> z) /\
  (let self := run (all_files_have 3) (repeat (ZoomIn f0_1) 9) init in
   let z := zoom_level self in
   reachable (all_files_have 3) self /\
   z = S754_finite false 0x1e66666666666a (-52) /\
   fle (fmul z f1_1) f3_0 = true /\
   fle f0_5 (fdiv (fmul z f1_1) f1_1) = true /\
   zoom_out_by_factor (snd (zoom_in_by_factor self f1_1)) f1_1 =
     Ok (true, set_zoom_level (S754_finite false 0x1e66666666666b (-52)) self)).
Proof.
  split.
  - repeat split. discriminate.
  - split; [|vm_compute; repeat split].
    unfold run. cbn [repeat fold_left].
    repeat (apply reach_exec; [| exact I]). apply reach_init.
Qed.

End Zoom.

(** * The pinch translator *)

Module Pinch.

Import Widget Round Rounding.



Lemma flt_finite_neg (m1 m2 : positive) (e1 e2 : Z) :
  flt (S754_finite true m1 e1) (S754_finite true m2 e2) = true <->
  e2 < e1 \/ (e1 = e2 /\ Zpos m2 < Zpos m1).
Proof.
  unfold flt, SFltb.
  replace (SFcompare (S754_finite true m1 e1) (S754_finite true m2 e2))
    with (Some (match e1 ?= e2 with
                | Lt => Gt
                | Gt => Lt
                | Eq => CompOpp (Zpos m1 ?= Zpos m2)
                end)) by reflexivity.
  destruct (Z.compare_spec e1 e2); destruct (Z.compare_spec (Zpos m1) (Zpos m2));
    split; intros; try discriminate; try reflexivity; lia.
Qed.


(** A delta that passes the threshold test is above 0.05 when it is above
    zero and below -0.05 when it is not. *)
Lemma past_threshold (delta : float) :
  fgt (fabs delta) f0_05 = true ->
  (fgt delta f0 = true -> fgt delta f0_05 = true) /\
  (fgt delta f0 = false -> flt delta (fopp f0_05) = true).
Proof.
  unfold fgt. destruct delta as [s|s| |s m e]; try discriminate.
  - destruct s; intros _; split; intros H; try reflexivity; discriminate H.
  - destruct s; intros Ha; split; intros H; try discriminate H.
    + cbn [fabs SFabs] in Ha. apply flt_finite_pos in Ha.
      unfold fopp, f0_05. cbn [SFopp negb]. apply flt_finite_neg.
      unfold f0_05 in Ha. lia.
    + exact Ha.
Qed.






(** The pinch of the specification: two points 100 apart, then 112 apart
    (one zoom-in call), then 113 apart (no call). *)
Example pinch_100_112_113 :
  let begin := mkEvent TouchBegin [at_x 0; at_x 100] in
  let wider := mkEvent TouchUpdate [at_x 0; at_x 112] in
  let widest := mkEvent TouchUpdate [at_x 0; at_x 113] in
  exists w1 w2 w3 : PDFContentWidget,
    handle_touch_event sample_ext recorder init [] begin =
      ((w1, []), Ok true) /\
    handle_touch_event sample_ext recorder w1 [] wider =
      ((w2, [called_zoom_in_by_factor f1_1]), Ok true) /\
    handle_touch_event sample_ext recorder w2
      [called_zoom_in_by_factor f1_1] widest =
      ((w3, [called_zoom_in_by_factor f1_1]), Ok true) /\
    w3 = w2.
Proof.
  cbv zeta. eexists. eexists. eexists.
  split; [vm_compute; reflexivity|].
  split; [vm_compute; reflexivity|].
  split; vm_compute; reflexivity.
Qed.

(** C7. A touch-end event that carries exactly two touch points ends the
    pinch: provided the distance is computed, the initial distance is not
    zero and the zoom call the event makes, if it makes one, returns,
    [initial_distance] is deleted, [last_pinch_scale] is 1.0 afterwards and
    the handler returns [True].  An event of another type whose point count
    is not two goes to the base class and changes nothing. *)
Theorem touch_end_clears (ext : External) (parent_viewer : ParentViewer)
    (self : PDFContentWidget) (v : viewer parent_viewer) (event : Event) :
  (forall (p1 p2 : TouchPoint) (d : float),
     touchPoints event = [p1; p2] ->
     type event = TouchEnd ->
     distance ext p1 p2 = Ok d ->
     (forall d0 : float,
        initial_distance self = Some d0 ->
        let delta := fsub (fdiv d d0) (last_pinch_scale self) in
        is_zero d0 = false /\
        (fgt delta f0_05 = true ->
         snd (zoom_in_by_factor parent_viewer v f1_1) = None) /\
        (flt delta (fopp f0_05) = true ->
         snd (zoom_out_by_factor parent_viewer v f1_1) = None)) ->
     exists v' : viewer parent_viewer,
       handle_touch_event ext parent_viewer self v event =
         ((mkWidget (pinch_scale_factor self) f1_0 None, v'), Ok true)) /\
  (List.length (touchPoints event) <> 2%nat ->
   type event <> TouchEnd ->
   handle_touch_event ext parent_viewer self v event =
     ((self, v), Ok (super_event ext event))).
Proof.
  split.
  - intros p1 p2 d Hpts Hty Hd Hcalls. unfold handle_touch_event.
    rewrite Hpts, Hd, Hty. unfold pinch_step.
    destruct (initial_distance self) as [d0|] eqn:Hinit.
    + destruct (Hcalls d0 eq_refl) as (Hnz & Hin & Hout).
      unfold truediv. rewrite Hnz.
      destruct (fgt (fabs (fsub (fdiv d d0) (last_pinch_scale self))) f0_05)
        eqn:Ha; [|eexists; reflexivity].
      destruct (past_threshold _ Ha) as [Hup Hdown].
      destruct (fgt (fsub (fdiv d d0) (last_pinch_scale self)) f0) eqn:Hz.
      * specialize (Hin (Hup eq_refl)).
        destruct (zoom_in_by_factor parent_viewer v f1_1) as [v' raised].
        cbn [snd] in Hin. subst raised. eexists. reflexivity.
      * specialize (Hout (Hdown eq_refl)).
        destruct (zoom_out_by_factor parent_viewer v f1_1) as [v' raised].
        cbn [snd] in Hout. subst raised. eexists. reflexivity.
    + eexists. reflexivity.
  - intros Hlen _. unfold handle_touch_event.
    destruct (touchPoints event) as [|p1 [|p2 [|p3 rest]]]; try reflexivity.
    contradiction Hlen. reflexivity.
Qed.

Lemma touch_end_clears_witness :
  (exists v' : list Call,
     handle_touch_event sample_ext recorder tracking []
       (mkEvent TouchEnd [at_x 0; at_x 112]) =
     ((mkWidget (pinch_scale_factor tracking) f1_0 None, v'), Ok true)) /\
  handle_touch_event sample_ext recorder tracking []
    (mkEvent TouchUpdate [at_x 0]) =
    ((tracking, []),
     Ok (super_event sample_ext (mkEvent TouchUpdate [at_x 0]))).
Proof.
  pose proof (touch_end_clears sample_ext recorder tracking []
                (mkEvent TouchEnd [at_x 0; at_x 112])) as [Hend _].
  pose proof (touch_end_clears sample_ext recorder tracking []
                (mkEvent TouchUpdate [at_x 0])) as [_ Hother].
  split.
  - apply (Hend (at_x 0) (at_x 112) (of_int 112)).
    + reflexivity.
    + reflexivity.
    + vm_compute. reflexivity.
    + intros d0 H. injection H as <-. repeat split.
  - apply Hother; [simpl; lia | discriminate].
Defined.

(** During a pinch, an update that carries one touch point, and a touch end
    that carries one touch point, both leave [initial_distance] in place. *)
Lemma touch_end_clears_counterexample :
  initial_distance tracking = Some (of_int 100) /\
  handle_touch_event sample_ext recorder tracking []
    (mkEvent TouchUpdate [at_x 0]) = ((tracking, []), Ok false) /\
  handle_touch_event sample_ext recorder tracking []
    (mkEvent TouchEnd [at_x 0]) = ((tracking, []), Ok false) /\
  event sample_ext recorder tracking [] (mkEvent TouchEnd []) =
    ((tracking, []), Ok false).
Proof. repeat split. Qed.

End Pinch.

(** * Rounding keeps the side *)

Module Sides.

Import Round Rounding Side.

Lemma finish_not_below (m : positive) (e m1 e1 : Z) :
  2 ^ 52 <= m1 <= 2 ^ 53 -> Zpos m < 2 ^ 53 ->
  e < e1 \/ (e1 = e /\ Zpos m <= m1) ->
  not_below m e (finish false m1 e1).
Proof.
  intros Hm Hlt He. destruct m1 as [|p|p]; try lia.
  unfold finish, overflow_or, prec, emax.
  destruct (Z.ltb_spec (Zpos p) (2 ^ 53)).
  - destruct (e1 <=? 1024 - 53); [right | left; reflexivity].
    exists p, e1. repeat split; lia.
  - destruct (e1 + 1 <=? 1024 - 53); [right | left; reflexivity].
    exists (Z.to_pos (2 ^ (53 - 1))), (e1 + 1).
    repeat split; try lia; reflexivity.
Qed.

Lemma finish_not_above (m : positive) (e m1 e1 : Z) :
  0 <= m1 <= 2 ^ 53 -> 2 ^ 52 <= Zpos m < 2 ^ 53 -> e <= 900 ->
  (-1074 < e1 -> 2 ^ 52 <= m1) ->
  e1 < e \/ (e1 = e /\ m1 <= Zpos m) ->
  not_above m e (finish false m1 e1).
Proof.
  intros Hm1 Hm He Hc Hb. destruct m1 as [|p|p]; try lia.
  - left. exists false. reflexivity.
  - unfold finish, overflow_or, prec, emax.
    destruct (Z.ltb_spec (Zpos p) (2 ^ 53)).
    + replace (e1 <=? 1024 - 53) with true by (symmetry; apply Z.leb_le; lia).
      right. right. right. exists p, e1. repeat split; lia.
    + replace (e1 + 1 <=? 1024 - 53) with true
        by (symmetry; apply Z.leb_le; lia).
      right. right. right. exists (Z.to_pos (2 ^ (53 - 1))), (e1 + 1).
      split; [reflexivity|].
      change (Zpos (Z.to_pos (2 ^ (53 - 1)))) with (2 ^ 52). lia.
Qed.

Lemma finish_true_not_above (m : positive) (e m1 e1 : Z) :
  not_above m e (finish true m1 e1).
Proof.
  unfold finish, overflow_or.
  destruct m1 as [|p|p]; try (left; exists true; reflexivity).
  destruct (Zpos p <? 2 ^ prec);
    match goal with
    | |- context [if ?c then _ else _] => destruct c
    end;
    try (right; left; eexists; eexists; reflexivity);
    right; right; left; reflexivity.
Qed.

Lemma self_not_below (m : positive) (e : Z) :
  2 ^ 52 <= Zpos m < 2 ^ 53 -> not_below m e (S754_finite false m e).
Proof. intros H. right. exists m, e. repeat split; lia. Qed.

Lemma self_not_above (m : positive) (e : Z) :
  2 ^ 52 <= Zpos m < 2 ^ 53 -> not_above m e (S754_finite false m e).
Proof. intros H. right. right. right. exists m, e. repeat split; lia. Qed.

(** Adding a float that is not negative does not go below. *)
Lemma fadd_not_below (m : positive) (e : Z) (s : float) :
  2 ^ 52 <= Zpos m < 2 ^ 53 -> -53 <= e <= -51 ->
  valid s = true -> fle f0 s = true ->
  not_below m e (fadd (S754_finite false m e) s).
Proof.
  intros Hm He Hv H0.
  destruct (at_least_zero s Hv H0)
    as [(sg & ->) | [-> | (ms & es & -> & Hc & Hes)]].
  - apply self_not_below, Hm.
  - left. reflexivity.
  - unfold fadd, SFadd. cbn [cond_Zopp].
    set (ez := Z.min e es).
    destruct (shl_align_down m e ez) as (a & -> & Ha); [unfold ez; lia|].
    destruct (shl_align_down ms es ez) as (b & -> & Hb); [unfold ez; lia|].
    cbn [fst Z.add binary_normalize].
    rewrite binary_round_frac.
    set (M := (a + b)%positive).
    assert (HM : Zpos M = Zpos m * 2 ^ (e - ez) + Zpos ms * 2 ^ (es - ez))
      by (unfold M; lia).
    assert (Hp : 0 < 2 ^ (e - ez))
      by (apply Z.pow_pos_nonneg; unfold ez; lia).
    assert (Hp' : 0 < 2 ^ (es - ez))
      by (apply Z.pow_pos_nonneg; unfold ez; lia).
    assert (Hge : Zpos m * 2 ^ (e - ez) <= Zpos M) by nia.
    assert (Hd : 53 + (e - ez) <= Zpos (digits2_pos M)).
    { replace (53 + (e - ez)) with (52 + (e - ez) + 1) by lia.
      apply digits_lower. rewrite Z.pow_add_r by (unfold ez; lia). nia. }
    rewrite fexp_eq.
    set (e1 := Z.max (Zpos (digits2_pos M) + ez - 53) (-1074)).
    assert (He1 : e1 = Zpos (digits2_pos M) + ez - 53) by (unfold e1; lia).
    replace (ez <=? e1) with true by (symmetry; apply Z.leb_le; lia).
    pose proof (shifted_normal M (e1 - ez)) as Hq.
    pose proof (nearest_bounds (Zpos M / 2 ^ (e1 - ez))
                  (Zpos M mod 2 ^ (e1 - ez)) (2 ^ (e1 - ez))) as Hn.
    apply finish_not_below; try lia.
    destruct (Z.eq_dec e1 e) as [Heq|Hne]; [right | left; lia].
    split; [exact Heq|].
    assert (Zpos m <= Zpos M / 2 ^ (e1 - ez)).
    { replace (e1 - ez) with (e - ez) by lia.
      apply Z.div_le_lower_bound; lia. }
    lia.
Qed.

(** Multiplying by a float that is at least one does not go below. *)
Lemma fmul_not_below (m : positive) (e : Z) (f : float) :
  2 ^ 52 <= Zpos m < 2 ^ 53 -> -53 <= e <= -51 ->
  valid f = true -> fle f1_0 f = true ->
  not_below m e (fmul (S754_finite false m e) f).
Proof.
  intros Hm He Hv H1.
  destruct (at_least_one f Hv H1) as [-> | (mf & ef & -> & Hmf & Hef)].
  - left. reflexivity.
  - unfold fmul, SFmul. cbn [xorb].
    set (M := (m * mf)%positive).
    assert (HM : Zpos M = Zpos m * Zpos mf) by (unfold M; lia).
    assert (Hge : Zpos m * 2 ^ 52 <= Zpos M).
    { rewrite HM. apply Z.mul_le_mono_nonneg_l; lia. }
    assert (Hd : 105 <= Zpos (digits2_pos M)).
    { change 105 with (104 + 1). apply digits_lower.
      change (2 ^ 104) with (2 ^ 52 * 2 ^ 52). nia. }
    pose proof (binary_round_aux_frac false M (e + ef) 0 1) as Hr.
    cbv zeta in Hr. rewrite fexp_eq in Hr.
    set (e1 := Z.max (Zpos (digits2_pos M) + (e + ef) - 53) (-1074)) in Hr.
    assert (He1 : e1 = Zpos (digits2_pos M) + (e + ef) - 53)
      by (unfold e1; lia).
    rewrite loc_exact, Hr by lia.
    pose proof (shifted_normal M (e1 - (e + ef))) as Hq.
    match goal with
    | |- context [nearest ?q ?n ?d] => pose proof (nearest_bounds q n d) as Hn
    end.
    apply finish_not_below; try lia.
    destruct (Z.eq_dec e1 e) as [Heq|Hne]; [right | left; lia].
    split; [exact Heq|].
    assert (Zpos m <= Zpos M / 2 ^ (e1 - (e + ef))).
    { replace (e1 - (e + ef)) with 52 by lia.
      apply Z.div_le_lower_bound; lia. }
    lia.
Qed.

Lemma binary_round_true_not_above (m M : positive) (e E : Z) :
  not_above m e (binary_round prec emax true M E).
Proof.
  rewrite binary_round_frac.
  match goal with
  | |- context [if ?c then _ else _] => destruct c
  end; apply finish_true_not_above.
Qed.

(** Subtracting a float that is not negative does not go above. *)
Lemma fsub_not_above (m : positive) (e : Z) (s : float) :
  2 ^ 52 <= Zpos m < 2 ^ 53 -> -53 <= e <= -51 ->
  valid s = true -> fle f0 s = true ->
  not_above m e (fsub (S754_finite false m e) s).
Proof.
  intros Hm He Hv H0.
  destruct (at_least_zero s Hv H0)
    as [(sg & ->) | [-> | (ms & es & -> & Hc & Hes)]].
  - apply self_not_above, Hm.
  - right. right. left. reflexivity.
  - unfold fsub, SFsub. cbn [cond_Zopp].
    set (ez := Z.min e es).
    destruct (shl_align_down m e ez) as (a & -> & Ha); [unfold ez; lia|].
    destruct (shl_align_down ms es ez) as (b & -> & Hb); [unfold ez; lia|].
    cbn [fst].
    assert (Hp : 0 < 2 ^ (e - ez))
      by (apply Z.pow_pos_nonneg; unfold ez; lia).
    destruct (Zpos a - Zpos b) as [|M|M] eqn:HM; cbn [binary_normalize].
    + left. exists false. reflexivity.
    + assert (Hlt : Zpos M < Zpos m * 2 ^ (e - ez)) by lia.
      assert (Hd : Zpos (digits2_pos M) <= 53 + (e - ez)).
      { apply digits_upper. rewrite Z.pow_add_r by (unfold ez; lia). nia. }
      rewrite binary_round_frac, fexp_eq.
      set (e1 := Z.max (Zpos (digits2_pos M) + ez - 53) (-1074)).
      assert (He1 : e1 <= e) by (unfold e1; lia).
      destruct (Z.leb_spec ez e1) as [Hle|Hgt].
      * pose proof (shifted_small M (e1 - ez)) as Hq.
        assert (Hq0 : 0 <= Zpos M / 2 ^ (e1 - ez))
          by (apply Z.div_pos; [lia | apply Z.pow_pos_nonneg; lia]).
        pose proof (nearest_bounds (Zpos M / 2 ^ (e1 - ez))
                      (Zpos M mod 2 ^ (e1 - ez)) (2 ^ (e1 - ez))) as Hn.
        apply finish_not_above; [ | lia | lia | | ].
        -- unfold e1 in *. lia.
        -- intros Hnorm.
           pose proof (shifted_normal M (e1 - ez)) as Hq'.
           unfold e1 in *. lia.
        -- destruct (Z.eq_dec e1 e) as [Heq|Hne]; [right | left; lia].
           split; [exact Heq|].
           assert (Hk : e1 - ez = e - ez) by lia.
           assert (Zpos M / 2 ^ (e1 - ez) < Zpos m).
           { rewrite Hk. apply Z.div_lt_upper_bound; lia. }
           lia.
      * assert (Hp1 : 0 < 2 ^ (ez - e1)) by (apply Z.pow_pos_nonneg; lia).
        assert (Hmz : exists mz, Zpos mz = Zpos M * 2 ^ (ez - e1)).
        { exists (Z.to_pos (Zpos M * 2 ^ (ez - e1))). rewrite Z2Pos.id; nia. }
        destruct Hmz as (mz & Hmz).
        pose proof (digits_shift M (ez - e1) mz) as Hdz.
        pose proof (digits2_pos_bounds mz) as Hbz.
        rewrite <- Hmz.
        assert (Hdz53 : Zpos (digits2_pos mz) <= 53) by (unfold e1 in *; lia).
        assert (Hlt53 : Zpos mz < 2 ^ 53).
        { assert (2 ^ Zpos (digits2_pos mz) <= 2 ^ 53)
            by (apply Z.pow_le_mono_r; lia). lia. }
        apply finish_not_above; [lia | lia | lia | | ].
        -- intros Hnorm.
           assert (Zpos (digits2_pos mz) = 53) by (unfold e1 in *; lia).
           replace (2 ^ 52) with (2 ^ (Zpos (digits2_pos mz) - 1))
             by (f_equal; lia).
           lia.
        -- left. unfold ez in *. lia.
    + apply binary_round_true_not_above.
Qed.

(** Dividing by a float that is at least one does not go above. *)
Lemma fdiv_not_above (m : positive) (e : Z) (f : float) :
  2 ^ 52 <= Zpos m < 2 ^ 53 -> -53 <= e <= -51 ->
  valid f = true -> fle f1_0 f = true ->
  not_above m e (fdiv (S754_finite false m e) f).
Proof.
  intros Hm He Hv H1.
  destruct (at_least_one f Hv H1) as [-> | (mf & ef & -> & Hmf & Hef)].
  - left. exists false. reflexivity.
  - rewrite fdiv_finite. cbn [xorb].
    rewrite (digits_unique m 53), (digits_unique mf 53) by (simpl; lia).
    set (e' := Z.min _ _).
    assert (He' : e' = Z.max (e - ef - 53) (-1074)) by (unfold e'; lia).
    set (s := e - ef - e').
    assert (Hs : 50 <= s <= 53) by (unfold s; lia).
    assert (Hps : 0 < 2 ^ s) by (apply Z.pow_pos_nonneg; lia).
    assert (Hps1 : 2 ^ s = 2 * 2 ^ (s - 1)).
    { replace s with (Z.succ (s - 1)) at 1 by lia.
      apply Z.pow_succ_r. lia. }
    set (m' := Zpos m * 2 ^ s).
    assert (Hdm : m' = Zpos mf * (m' / Zpos mf) + m' mod Zpos mf)
      by (apply Z.div_mod; lia).
    assert (Hr : 0 <= m' mod Zpos mf < Zpos mf)
      by (apply Z.mod_pos_bound; lia).
    assert (Hql : 2 ^ (s - 1) <= m' / Zpos mf).
    { apply Z.div_le_lower_bound; [lia|]. unfold m'. nia. }
    assert (Hqu : m' / Zpos mf < 2 ^ (s + 1)).
    { apply Z.div_lt_upper_bound; [lia|].
      rewrite Z.pow_add_r by lia. unfold m'. nia. }
    destruct (m' / Zpos mf) as [|Q|Q] eqn:HQ; try lia.
    assert (Hdl : s <= Zpos (digits2_pos Q))
      by (replace s with (s - 1 + 1) by lia; apply digits_lower; lia).
    assert (Hdu : Zpos (digits2_pos Q) <= s + 1)
      by (apply digits_upper; lia).
    rewrite binary_round_aux_frac; rewrite ?fexp_eq; try lia.
    set (e1 := Z.max (Zpos (digits2_pos Q) + e' - 53) (-1074)).
    assert (He1 : e' <= e1) by (unfold e1; lia).
    set (k := e1 - e').
    pose proof (shifted_small Q k) as Hsmall.
    assert (Hq0 : 0 <= Zpos Q / 2 ^ k)
      by (apply Z.div_pos; [lia | apply Z.pow_pos_nonneg; unfold k; lia]).
    match goal with
    | |- context [nearest ?q ?n ?d] =>
        pose proof (nearest_bounds q n d) as Hn;
        pose proof (nearest_error q n d) as Herr;
        set (m1 := nearest q n d) in *
    end.
    apply finish_not_above; [ | lia | lia | | ].
    + unfold k, e1 in *. lia.
    + intros Hnorm. pose proof (shifted_normal Q k) as Hq'.
      unfold k, e1 in *. lia.
    + destruct (Z.eq_dec e1 e) as [Heq|Hne];
        [right | left; unfold e1 in *; lia].
      split; [exact Heq|].
      assert (Hk : k = 1) by (unfold k, e1 in *; lia).
      assert (Hs53 : s = 53) by (unfold s, e1 in *; lia).
      rewrite Hk in *. change (2 ^ 1) with 2 in *.
      assert (Hq2 : Zpos Q = 2 * (Zpos Q / 2) + Zpos Q mod 2)
        by (apply Z.div_mod; lia).
      assert (Hb2 : 0 <= Zpos Q mod 2 < 2) by (apply Z.mod_pos_bound; lia).
      set (b := Zpos Q mod 2) in *. set (h := Zpos Q / 2) in *.
      set (r := m' mod Zpos mf) in *.
      assert (Hfrac : 0 <= b * Zpos mf + r < 2 * Zpos mf).
      { assert (Hb : b = 0 \/ b = 1) by lia.
        destruct Hb as [-> | ->]; lia. }
      specialize (Herr Hfrac).
      assert (Hval : h * (2 * Zpos mf) + (b * Zpos mf + r) = m').
      { replace (h * (2 * Zpos mf) + (b * Zpos mf + r))
          with (Zpos mf * (2 * h + b) + r) by ring.
        rewrite <- Hq2. symmetry. exact Hdm. }
      rewrite Hval in Herr. unfold m' in Herr. rewrite Hs53 in Herr.
      destruct (Z.le_gt_cases m1 (Zpos m)) as [Hle|Hgt]; [exact Hle|].
      exfalso.
      assert (H1m : 0 <= (m1 - Zpos m - 1) * Zpos mf)
        by (apply Z.mul_nonneg_nonneg; lia).
      assert (H2m : 0 <= Zpos m * (Zpos mf - 2 ^ 52))
        by (apply Z.mul_nonneg_nonneg; lia).
      change (2 ^ 53) with (2 * 2 ^ 52) in Herr.
      clear - Herr Hgt H1m H2m. lia.
Qed.

End Sides.

(** * Direction and limits of the zoom *)

Module Limits.

Import Core Session Round Rounding Side Sides.

Lemma min_not_below (m : positive) (e : Z) (r : float) :
  fle (S754_finite false m e) f3_0 = true ->
  not_below m e r ->
  fle (S754_finite false m e) (Py.min r f3_0) = true.
Proof.
  intros H3 Hr. unfold Py.min.
  destruct (flt f3_0 r) eqn:Hlt; [exact H3|].
  destruct Hr as [-> | (m' & e' & -> & Hm' & He')]; [discriminate Hlt|].
  apply fle_finite_pos. lia.
Qed.

Lemma max_not_above (m : positive) (e : Z) (r : float) :
  fle f0_5 (S754_finite false m e) = true ->
  not_above m e r ->
  fle (Py.max r f0_5) (S754_finite false m e) = true.
Proof.
  intros H5 Hr. unfold Py.max, fgt.
  destruct (SFltb r f0_5) eqn:Hlt; [exact H5|].
  destruct Hr as [(s & ->) | [(m' & e' & ->) | [-> | (m' & e' & -> & _ & He')]]];
    try discriminate Hlt.
  apply fle_finite_pos. lia.
Qed.

Section Moves.

Variables (self : PDFViewerCore) (step factor : float).

Let z := zoom_level self.

Hypothesis Hv : valid z = true.
Hypothesis Hlo : fle f0_5 z = true.
Hypothesis Hhi : fle z f3_0 = true.

Lemma zoom_in_not_lower :
  valid step = true -> fle f0 step = true ->
  fle z (zoom_level (snd (zoom_in self step))) = true.
Proof.
  intros Hvs Hs.
  assert (Hz : zoomable z) by (apply zoomable_bounds; auto).
  destruct Hz as (m & e & Hze & Hm & He & _).
  unfold zoom_in. fold z. rewrite Hze in *. cbn [snd zoom_level set_zoom_level].
  apply min_not_below, fadd_not_below; assumption.
Qed.

Lemma zoom_out_not_higher :
  valid step = true -> fle f0 step = true ->
  fle (zoom_level (snd (zoom_out self step))) z = true.
Proof.
  intros Hvs Hs.
  assert (Hz : zoomable z) by (apply zoomable_bounds; auto).
  destruct Hz as (m & e & Hze & Hm & He & _).
  unfold zoom_out. fold z. rewrite Hze in *. cbn [snd zoom_level set_zoom_level].
  apply max_not_above, fsub_not_above; assumption.
Qed.

Lemma zoom_in_by_factor_not_lower :
  valid factor = true -> fle f1_0 factor = true ->
  fle z (zoom_level (snd (zoom_in_by_factor self factor))) = true.
Proof.
  intros Hvf Hf.
  assert (Hz : zoomable z) by (apply zoomable_bounds; auto).
  destruct Hz as (m & e & Hze & Hm & He & _).
  unfold zoom_in_by_factor. fold z. rewrite Hze in *.
  cbn [snd zoom_level set_zoom_level].
  apply min_not_below, fmul_not_below; assumption.
Qed.

Lemma zoom_out_by_factor_not_higher :
  valid factor = true -> fle f1_0 factor = true ->
  exists self' : PDFViewerCore,
    zoom_out_by_factor self factor = Ok (true, self') /\
    fle (zoom_level self') z = true.
Proof.
  intros Hvf Hf.
  assert (Hz : zoomable z) by (apply zoomable_bounds; auto).
  destruct Hz as (m & e & Hze & Hm & He & _).
  unfold zoom_out_by_factor. fold z. rewrite Hze in *.
  unfold truediv.
  assert (Hnz : is_zero factor = false).
  { destruct factor as [s|s| |s mf ef]; try reflexivity. discriminate Hf. }
  rewrite Hnz. cbn [bind]. eexists. split; [reflexivity|].
  cbn [zoom_level set_zoom_level].
  apply max_not_above, fdiv_not_above; assumption.
Qed.

End Moves.

(** X5. For a zoom in [0.5, 3.0], a step that is not negative and a factor
    that is at least one: [zoom_in] and [zoom_in_by_factor] never lower the
    zoom, [zoom_out] and [zoom_out_by_factor] never raise it. *)
Theorem zoom_direction (self : PDFViewerCore) (step factor : float) :
  let z := zoom_level self in
  valid z = true -> fle f0_5 z = true -> fle z f3_0 = true ->
  valid step = true -> fle f0 step = true ->
  valid factor = true -> fle f1_0 factor = true ->
  fle z (zoom_level (snd (zoom_in self step))) = true /\
  fle (zoom_level (snd (zoom_out self step))) z = true /\
  fle z (zoom_level (snd (zoom_in_by_factor self factor))) = true /\
  exists self' : PDFViewerCore,
    zoom_out_by_factor self factor = Ok (true, self') /\
    fle (zoom_level self') z = true.
Proof.
  intros z Hv Hlo Hhi Hvs Hs Hvf Hf.
  split; [apply zoom_in_not_lower; assumption|].
  split; [apply zoom_out_not_higher; assumption|].
  split; [apply zoom_in_by_factor_not_lower; assumption|].
  apply zoom_out_by_factor_not_higher; assumption.
Qed.

Lemma zoom_direction_witness :
  fle f1_0 (zoom_level (snd (zoom_in two_pages f0_1))) = true /\
  fle (zoom_level (snd (zoom_out two_pages f0_1))) f1_0 = true /\
  fle f1_0 (zoom_level (snd (zoom_in_by_factor two_pages f1_1))) = true /\
  exists self' : PDFViewerCore,
    zoom_out_by_factor two_pages f1_1 = Ok (true, self') /\
    fle (zoom_level self') f1_0 = true.
Proof.
  apply (zoom_direction two_pages f0_1 f1_1); reflexivity.
Defined.

Lemma zoomable_equal (a b : float) :
  zoomable a -> zoomable b ->
  fle a b = true -> fle b a = true -> a = b.
Proof.
  intros (ma & ea & -> & Hma & _) (mb & eb & -> & Hmb & _) Hab Hba.
  apply fle_finite_pos in Hab. apply fle_finite_pos in Hba.
  assert (ea = eb) by lia. assert (Zpos ma = Zpos mb) by lia.
  subst eb. f_equal. lia.
Qed.

(** X6. At the zoom 3.0, [zoom_in] with any step that is not negative and
    [zoom_in_by_factor] with any factor from 1.0 on leave the zoom at
    exactly 3.0; at 0.5, [zoom_out] and [zoom_out_by_factor] leave it at
    exactly 0.5. *)
Theorem zoom_limits (self : PDFViewerCore) (step factor : float) :
  valid step = true -> fle f0 step = true ->
  valid factor = true -> fle f1_0 factor = true ->
  (zoom_level self = f3_0 ->
   zoom_level (snd (zoom_in self step)) = f3_0 /\
   zoom_level (snd (zoom_in_by_factor self factor)) = f3_0) /\
  (zoom_level self = f0_5 ->
   zoom_level (snd (zoom_out self step)) = f0_5 /\
   zoom_out_by_factor self factor = Ok (true, set_zoom_level f0_5 self)).
Proof.
  intros Hvs Hs Hvf Hf.
  assert (H3 : zoomable f3_0)
    by (exists 0x18000000000000%positive, (-51); repeat split; lia).
  assert (H5 : zoomable f0_5)
    by (exists 0x10000000000000%positive, (-53); repeat split; lia).
  split; intros Hz.
  - assert (Hb : valid (zoom_level self) = true /\
                 fle f0_5 (zoom_level self) = true /\
                 fle (zoom_level self) f3_0 = true)
      by (rewrite Hz; repeat split).
    destruct Hb as (Hv & Hlo & Hhi).
    pose proof (zoom_in_not_lower self step Hv Hlo Hhi Hvs Hs) as Hin.
    pose proof (zoom_in_by_factor_not_lower self factor Hv Hlo Hhi Hvf Hf)
      as Hmul.
    rewrite Hz in Hin, Hmul.
    split; symmetry; apply zoomable_equal; try assumption.
    + unfold zoom_in. cbn [snd zoom_level set_zoom_level]. rewrite Hz.
      apply min_zoomable, fadd_at_least_half; assumption.
    + unfold zoom_in. cbn [snd zoom_level set_zoom_level]. rewrite Hz.
      apply zoomable_bounds.
      apply min_zoomable, fadd_at_least_half; assumption.
    + unfold zoom_in_by_factor. cbn [snd zoom_level set_zoom_level].
      rewrite Hz. apply min_zoomable, fmul_at_least_half; assumption.
    + unfold zoom_in_by_factor. cbn [snd zoom_level set_zoom_level].
      rewrite Hz. apply zoomable_bounds.
      apply min_zoomable, fmul_at_least_half; assumption.
  - assert (Hb : valid (zoom_level self) = true /\
                 fle f0_5 (zoom_level self) = true /\
                 fle (zoom_level self) f3_0 = true)
      by (rewrite Hz; repeat split).
    destruct Hb as (Hv & Hlo & Hhi).
    pose proof (zoom_out_not_higher self step Hv Hlo Hhi Hvs Hs) as Hout.
    destruct (zoom_out_by_factor_not_higher self factor Hv Hlo Hhi Hvf Hf)
      as (self' & Hdiv & Hle).
    rewrite Hz in Hout, Hle.
    split.
    + apply zoomable_equal; try assumption.
      * unfold zoom_out. cbn [snd zoom_level set_zoom_level]. rewrite Hz.
        apply max_zoomable, fsub_at_most_three; assumption.
      * unfold zoom_out. cbn [snd zoom_level set_zoom_level]. rewrite Hz.
        apply zoomable_bounds.
        apply max_zoomable, fsub_at_most_three; assumption.
    + rewrite Hdiv. unfold zoom_out_by_factor, truediv in Hdiv.
      destruct (is_zero factor); [discriminate Hdiv|].
      cbn [bind] in Hdiv. injection Hdiv as Hself'.
      assert (Hq : zoomable (zoom_level self')).
      { rewrite <- Hself'. cbn [zoom_level set_zoom_level]. rewrite Hz.
        apply max_zoomable, fdiv_at_most_three; assumption. }
      assert (Heq : zoom_level self' = f0_5).
      { apply zoomable_equal; try assumption.
        apply zoomable_bounds, Hq. }
      rewrite <- Hself' in Heq |- *. cbn [zoom_level set_zoom_level] in Heq.
      rewrite Heq. reflexivity.
Qed.

Lemma zoom_limits_witness :
  (zoom_level (set_zoom_level f3_0 two_pages) = f3_0 ->
   zoom_level (snd (zoom_in (set_zoom_level f3_0 two_pages) f0_1)) = f3_0 /\
   zoom_level (snd (zoom_in_by_factor (set_zoom_level f3_0 two_pages) f1_1))
     = f3_0) /\
  (zoom_level (set_zoom_level f3_0 two_pages) = f0_5 ->
   zoom_level (snd (zoom_out (set_zoom_level f3_0 two_pages) f0_1)) = f0_5 /\
   zoom_out_by_factor (set_zoom_level f3_0 two_pages) f1_1 =
     Ok (true, set_zoom_level f0_5 (set_zoom_level f3_0 two_pages))).
Proof.
  apply (zoom_limits (set_zoom_level f3_0 two_pages) f0_1 f1_1); reflexivity.
Defined.

(** X7. Nothing in the zoom methods rejects a NaN: a NaN step or factor makes
    the zoom NaN, and once the zoom is NaN every zoom method keeps it NaN,
    whatever its argument. *)
Theorem nan_zoom_sticks (self : PDFViewerCore) (f : float) :
  (zoom_level (snd (zoom_in self S754_nan)) = S754_nan /\
   zoom_level (snd (zoom_out self S754_nan)) = S754_nan /\
   zoom_level (snd (zoom_in_by_factor self S754_nan)) = S754_nan /\
   zoom_out_by_factor self S754_nan =
     Ok (true, set_zoom_level S754_nan self)) /\
  (zoom_level self = S754_nan ->
   zoom_level (snd (zoom_in self f)) = S754_nan /\
   zoom_level (snd (zoom_out self f)) = S754_nan /\
   zoom_level (snd (zoom_in_by_factor self f)) = S754_nan /\
   (is_zero f = false ->
    zoom_out_by_factor self f = Ok (true, set_zoom_level S754_nan self))).
Proof.
  split.
  - unfold zoom_in, zoom_out, zoom_in_by_factor, zoom_out_by_factor.
    cbn [snd zoom_level set_zoom_level truediv is_zero bind].
    destruct (zoom_level self) as [s|s| |s m e]; repeat split.
  - intros Hz.
    unfold zoom_in, zoom_out, zoom_in_by_factor, zoom_out_by_factor, truediv.
    cbn [snd zoom_level set_zoom_level]. rewrite Hz.
    repeat split.
    intros Hnz. rewrite Hnz. reflexivity.
Qed.

End Limits.

(** * Repeated default zoom steps *)

Module Settle.

Import Core Session Round Rounding Side Sides.

(** Adding 0.1 to a zoom level moves it up by at least [0.1 - 2^-52]:
    in steps of [2^-56], by the mantissa of 0.1 less the rounding error. *)
Lemma fadd_tenth (m : positive) (e : Z) :
  2 ^ 52 <= Zpos m < 2 ^ 53 -> -53 <= e <= -51 ->
  (e = -51 -> Zpos m <= 3 * 2 ^ 51) ->
  exists (m' : positive) (e' : Z),
    fadd (S754_finite false m e) f0_1 = S754_finite false m' e' /\
    Zpos m * 2 ^ (e + 56) + (0x1999999999999a - 16) <= Zpos m' * 2 ^ (e' + 56).
Proof.
  intros Hm He H3. unfold fadd, f0_1, SFadd. cbn [cond_Zopp].
  replace (Z.min e (-56)) with (-56) by lia.
  destruct (shl_align_down m e (-56)) as (a & -> & Ha); [lia|].
  destruct (shl_align_down 0x1999999999999a (-56) (-56)) as (b & -> & Hb);
    [lia|].
  cbn [fst Z.add binary_normalize].
  change (2 ^ (-56 - -56)) with 1 in Hb.
  set (M := (a + b)%positive).
  assert (HM : Zpos M = Zpos m * 2 ^ (e + 56) + 0x1999999999999a).
  { unfold M. replace (e + 56) with (e - -56) by lia. lia. }
  assert (Hpow : 2 ^ (e + 56) = 8 \/ 2 ^ (e + 56) = 16 \/ 2 ^ (e + 56) = 32).
  { assert (Hc : e = -53 \/ e = -52 \/ e = -51) by lia.
    destruct Hc as [-> | [-> | ->]]; auto. }
  assert (Hb3 : 2 ^ (e + 56) = 32 -> e = -51).
  { intros H. assert (Hc : e = -53 \/ e = -52 \/ e = -51) by lia.
    destruct Hc as [-> | [-> | ->]]; [discriminate H | discriminate H | lia]. }
  assert (HMb : 2 ^ 55 <= Zpos M < 2 ^ 58).
  { destruct Hpow as [Hp | [Hp | Hp]]; rewrite HM, Hp; lia. }
  assert (Hd : 56 <= Zpos (digits2_pos M) <= 58).
  { split.
    - change 56 with (55 + 1). apply digits_lower. lia.
    - apply digits_upper. lia. }
  rewrite binary_round_frac, fexp_eq.
  set (e1 := Z.max (Zpos (digits2_pos M) + -56 - 53) (-1074)).
  assert (He1 : e1 = Zpos (digits2_pos M) - 109) by (unfold e1; lia).
  replace (-56 <=? e1) with true by (symmetry; apply Z.leb_le; lia).
  set (k := e1 - -56).
  assert (Hk : k = Zpos (digits2_pos M) - 53) by (unfold k; lia).
  assert (Hpk : 0 < 2 ^ k) by (apply Z.pow_pos_nonneg; lia).
  assert (Hpk' : 2 ^ k <= 32).
  { change 32 with (2 ^ 5). apply Z.pow_le_mono_r; lia. }
  pose proof (shifted_normal M k ltac:(lia) Hk) as Hq.
  assert (Hdm : Zpos M = 2 ^ k * (Zpos M / 2 ^ k) + Zpos M mod 2 ^ k)
    by (apply Z.div_mod; lia).
  assert (Hmod : 0 <= Zpos M mod 2 ^ k < 2 ^ k)
    by (apply Z.mod_pos_bound; lia).
  pose proof (nearest_bounds (Zpos M / 2 ^ k) (Zpos M mod 2 ^ k) (2 ^ k)) as Hn.
  pose proof (nearest_error (Zpos M / 2 ^ k) (Zpos M mod 2 ^ k) (2 ^ k) Hmod)
    as Herr.
  set (m1 := nearest _ _ _) in *.
  replace (Zpos M / 2 ^ k * 2 ^ k + Zpos M mod 2 ^ k) with (Zpos M) in Herr
    by lia.
  assert (Hlow : Zpos M - 16 <= m1 * 2 ^ k) by lia.
  assert (Hek : 2 ^ (e1 + 56) = 2 ^ k) by (f_equal; unfold k; lia).
  destruct m1 as [|p|p] eqn:Hp; try lia.
  unfold finish, overflow_or, prec, emax.
  destruct (Z.ltb_spec (Zpos p) (2 ^ 53)) as [Hlt|Hge].
  - replace (e1 <=? 1024 - 53) with true by (symmetry; apply Z.leb_le; lia).
    exists p, e1. split; [reflexivity|]. rewrite Hek. lia.
  - replace (e1 + 1 <=? 1024 - 53) with true
      by (symmetry; apply Z.leb_le; lia).
    exists (Z.to_pos (2 ^ (53 - 1))), (e1 + 1). split; [reflexivity|].
    change (Zpos (Z.to_pos (2 ^ (53 - 1)))) with (2 ^ 52).
    replace (e1 + 1 + 56) with (Z.succ (e1 + 56)) by lia.
    rewrite Z.pow_succ_r, Hek by lia.
    assert (Zpos p = 2 ^ 53) by lia. lia.
Qed.

(** Subtracting 0.1 from a zoom level moves it down by at least
    [0.1 - 2^-52]. *)
Lemma fsub_tenth (m : positive) (e : Z) :
  2 ^ 52 <= Zpos m < 2 ^ 53 -> -53 <= e <= -51 ->
  (e = -51 -> Zpos m <= 3 * 2 ^ 51) ->
  exists (m' : positive) (e' : Z),
    fsub (S754_finite false m e) f0_1 = S754_finite false m' e' /\
    Zpos m' * 2 ^ (e' + 56) <= Zpos m * 2 ^ (e + 56) - (0x1999999999999a - 16).
Proof.
  intros Hm He H3. unfold fsub, f0_1, SFsub. cbn [cond_Zopp].
  replace (Z.min e (-56)) with (-56) by lia.
  destruct (shl_align_down m e (-56)) as (a & -> & Ha); [lia|].
  destruct (shl_align_down 0x1999999999999a (-56) (-56)) as (b & -> & Hb);
    [lia|].
  cbn [fst].
  change (2 ^ (-56 - -56)) with 1 in Hb.
  assert (Hpow : 2 ^ (e + 56) = 8 \/ 2 ^ (e + 56) = 16 \/ 2 ^ (e + 56) = 32).
  { assert (Hc : e = -53 \/ e = -52 \/ e = -51) by lia.
    destruct Hc as [-> | [-> | ->]]; auto. }
  assert (Hb3 : 2 ^ (e + 56) = 32 -> e = -51).
  { intros H. assert (Hc : e = -53 \/ e = -52 \/ e = -51) by lia.
    destruct Hc as [-> | [-> | ->]]; [discriminate H | discriminate H | lia]. }
  replace (e - -56) with (e + 56) in Ha by lia.
  assert (HMb : 2 ^ 54 <= Zpos a - Zpos b < 2 ^ 58).
  { destruct Hpow as [Hp | [Hp | Hp]]; rewrite Ha, Hb, Hp; lia. }
  destruct (Zpos a - Zpos b) as [|M|M] eqn:HM; try lia.
  cbn [binary_normalize].
  assert (Hd : 55 <= Zpos (digits2_pos M) <= 58).
  { split.
    - change 55 with (54 + 1). apply digits_lower. lia.
    - apply digits_upper. lia. }
  rewrite binary_round_frac, fexp_eq.
  set (e1 := Z.max (Zpos (digits2_pos M) + -56 - 53) (-1074)).
  assert (He1 : e1 = Zpos (digits2_pos M) - 109) by (unfold e1; lia).
  replace (-56 <=? e1) with true by (symmetry; apply Z.leb_le; lia).
  set (k := e1 - -56).
  assert (Hk : k = Zpos (digits2_pos M) - 53) by (unfold k; lia).
  assert (Hpk : 0 < 2 ^ k) by (apply Z.pow_pos_nonneg; lia).
  assert (Hpk' : 2 ^ k <= 32).
  { change 32 with (2 ^ 5). apply Z.pow_le_mono_r; lia. }
  pose proof (shifted_normal M k ltac:(lia) Hk) as Hq.
  assert (Hdm : Zpos M = 2 ^ k * (Zpos M / 2 ^ k) + Zpos M mod 2 ^ k)
    by (apply Z.div_mod; lia).
  assert (Hmod : 0 <= Zpos M mod 2 ^ k < 2 ^ k)
    by (apply Z.mod_pos_bound; lia).
  pose proof (nearest_bounds (Zpos M / 2 ^ k) (Zpos M mod 2 ^ k) (2 ^ k)) as Hn.
  pose proof (nearest_error (Zpos M / 2 ^ k) (Zpos M mod 2 ^ k) (2 ^ k) Hmod)
    as Herr.
  set (m1 := nearest _ _ _) in *.
  replace (Zpos M / 2 ^ k * 2 ^ k + Zpos M mod 2 ^ k) with (Zpos M) in Herr
    by lia.
  assert (Hup : m1 * 2 ^ k <= Zpos M + 16) by lia.
  assert (Hek : 2 ^ (e1 + 56) = 2 ^ k) by (f_equal; unfold k; lia).
  destruct m1 as [|p|p] eqn:Hp; try lia.
  unfold finish, overflow_or, prec, emax.
  destruct (Z.ltb_spec (Zpos p) (2 ^ 53)) as [Hlt|Hge].
  - replace (e1 <=? 1024 - 53) with true by (symmetry; apply Z.leb_le; lia).
    exists p, e1. split; [reflexivity|]. rewrite Hek. lia.
  - replace (e1 + 1 <=? 1024 - 53) with true
      by (symmetry; apply Z.leb_le; lia).
    exists (Z.to_pos (2 ^ (53 - 1))), (e1 + 1). split; [reflexivity|].
    change (Zpos (Z.to_pos (2 ^ (53 - 1)))) with (2 ^ 52).
    replace (e1 + 1 + 56) with (Z.succ (e1 + 56)) by lia.
    rewrite Z.pow_succ_r, Hek by lia.
    assert (Zpos p = 2 ^ 53) by lia. lia.
Qed.

Lemma steps56_zoomable (z : float) :
  zoomable z -> 2 ^ 55 <= steps56 z <= 3 * 2 ^ 56.
Proof.
  intros (m & e & -> & Hm & He & H3). cbn [steps56].
  assert (Hc : e = -53 \/ e = -52 \/ e = -51) by lia.
  destruct Hc as [-> | [-> | ->]]; cbn [Z.add Z.pos_sub Pos.pred_double];
    try specialize (H3 eq_refl); lia.
Qed.

(** One default [zoom_in()] reaches 3.0 or moves up by a fixed amount. *)
Lemma zoom_in_progress (z : float) :
  zoomable z ->
  let z' := Py.min (fadd z f0_1) f3_0 in
  z' = f3_0 \/
  (zoomable z' /\ steps56 z + (0x1999999999999a - 16) <= steps56 z').
Proof.
  intros Hz z'.
  assert (Hz' : zoomable z').
  { apply min_zoomable, fadd_at_least_half; [exact Hz | reflexivity..]. }
  destruct Hz as (m & e & Hze & Hm & He & H3).
  destruct (fadd_tenth m e Hm He H3) as (m' & e' & Hr & Hstep).
  unfold z', Py.min in *. rewrite Hze, Hr in *.
  destruct (flt f3_0 (S754_finite false m' e')); [left; reflexivity|].
  right. split; [exact Hz'|]. exact Hstep.
Qed.

(** One default [zoom_out()] reaches 0.5 or moves down by a fixed
    amount. *)
Lemma zoom_out_progress (z : float) :
  zoomable z ->
  let z' := Py.max (fsub z f0_1) f0_5 in
  z' = f0_5 \/
  (zoomable z' /\ steps56 z' <= steps56 z - (0x1999999999999a - 16)).
Proof.
  intros Hz z'.
  assert (Hz' : zoomable z').
  { apply max_zoomable, fsub_at_most_three; [exact Hz | reflexivity..]. }
  destruct Hz as (m & e & Hze & Hm & He & H3).
  destruct (fsub_tenth m e Hm He H3) as (m' & e' & Hr & Hstep).
  unfold z', Py.max, fgt in *. rewrite Hze, Hr in *.
  destruct (SFltb (S754_finite false m' e') f0_5); [left; reflexivity|].
  right. split; [exact Hz'|]. exact Hstep.
Qed.

Lemma run_repeat_succ (ext : External) (o : op) (n : nat)
    (self : PDFViewerCore) :
  run ext (repeat o (S n)) self = run ext (repeat o n) (exec ext o self).
Proof. reflexivity. Qed.

Lemma stays_at_three (ext : External) (n : nat) :
  forall self : PDFViewerCore,
  zoom_level self = f3_0 ->
  zoom_level (run ext (repeat (ZoomIn f0_1) n) self) = f3_0.
Proof.
  induction n as [|n IH]; intros self Hz; [exact Hz|].
  rewrite run_repeat_succ. apply IH.
  cbn [exec zoom_in snd zoom_level set_zoom_level]. rewrite Hz. reflexivity.
Qed.

Lemma stays_at_half (ext : External) (n : nat) :
  forall self : PDFViewerCore,
  zoom_level self = f0_5 ->
  zoom_level (run ext (repeat (ZoomOut f0_1) n) self) = f0_5.
Proof.
  induction n as [|n IH]; intros self Hz; [exact Hz|].
  rewrite run_repeat_succ. apply IH.
  cbn [exec zoom_out snd zoom_level set_zoom_level]. rewrite Hz. reflexivity.
Qed.

Lemma zoom_in_climbs (ext : External) (n : nat) :
  forall self : PDFViewerCore,
  zoomable (zoom_level self) ->
  let zn := zoom_level (run ext (repeat (ZoomIn f0_1) n) self) in
  zn = f3_0 \/
  (zoomable zn /\
   steps56 (zoom_level self) + Z.of_nat n * (0x1999999999999a - 16)
     <= steps56 zn).
Proof.
  induction n as [|n IH]; intros self Hz zn.
  - right. split; [exact Hz|]. unfold zn. cbn. lia.
  - unfold zn. rewrite run_repeat_succ.
    destruct (zoom_in_progress (zoom_level self) Hz) as [H3 | [Hz1 Hs1]].
    + left. apply stays_at_three. exact H3.
    + specialize (IH (exec ext (ZoomIn f0_1) self) Hz1).
      destruct IH as [H3 | [Hzn Hsn]]; [left; exact H3|].
      right. split; [exact Hzn|].
      change (Py.min (fadd (zoom_level self) f0_1) f3_0)
        with (zoom_level (exec ext (ZoomIn f0_1) self)) in Hs1.
      lia.
Qed.

Lemma zoom_out_descends (ext : External) (n : nat) :
  forall self : PDFViewerCore,
  zoomable (zoom_level self) ->
  let zn := zoom_level (run ext (repeat (ZoomOut f0_1) n) self) in
  zn = f0_5 \/
  (zoomable zn /\
   steps56 zn
     <= steps56 (zoom_level self) - Z.of_nat n * (0x1999999999999a - 16)).
Proof.
  induction n as [|n IH]; intros self Hz zn.
  - right. split; [exact Hz|]. unfold zn. cbn. lia.
  - unfold zn. rewrite run_repeat_succ.
    destruct (zoom_out_progress (zoom_level self) Hz) as [H5 | [Hz1 Hs1]].
    + left. apply stays_at_half. exact H5.
    + specialize (IH (exec ext (ZoomOut f0_1) self) Hz1).
      destruct IH as [H5 | [Hzn Hsn]]; [left; exact H5|].
      right. split; [exact Hzn|].
      change (Py.max (fsub (zoom_level self) f0_1) f0_5)
        with (zoom_level (exec ext (ZoomOut f0_1) self)) in Hs1.
      lia.
Qed.

(** X8. From any zoom in [0.5, 3.0], 26 or more default [zoom_in()] calls in a
    row leave the zoom at exactly 3.0, and 26 or more default [zoom_out()]
    calls leave it at exactly 0.5. *)
Theorem zoom_settles (ext : External) (self : PDFViewerCore) (n : nat) :
  valid (zoom_level self) = true ->
  fle f0_5 (zoom_level self) = true -> fle (zoom_level self) f3_0 = true ->
  (26 <= n)%nat ->
  zoom_level (run ext (repeat (ZoomIn f0_1) n) self) = f3_0 /\
  zoom_level (run ext (repeat (ZoomOut f0_1) n) self) = f0_5.
Proof.
  intros Hv Hlo Hhi Hn.
  assert (Hz : zoomable (zoom_level self)) by (apply zoomable_bounds; auto).
  pose proof (steps56_zoomable _ Hz) as Hb.
  split.
  - destruct (zoom_in_climbs ext n self Hz) as [H | [Hzn Hs]]; [exact H|].
    pose proof (steps56_zoomable _ Hzn) as Hbn. lia.
  - destruct (zoom_out_descends ext n self Hz) as [H | [Hzn Hs]]; [exact H|].
    pose proof (steps56_zoomable _ Hzn) as Hbn. lia.
Qed.

Lemma zoom_settles_witness :
  zoom_level (run (all_files_have 3) (repeat (ZoomIn f0_1) 26) two_pages)
    = f3_0 /\
  zoom_level (run (all_files_have 3) (repeat (ZoomOut f0_1) 26) two_pages)
    = f0_5.
Proof.
  apply (zoom_settles (all_files_have 3) two_pages 26); reflexivity.
Defined.

End Settle.

(** * The application: scrolling, the page field, the wheel and the pinch *)

Module Viewer.

Import Core Session Round Rounding App.

(** [display_page] and [update_page_display] touch nothing of the core but
    the page height. *)
Lemma display_page_height (ext : External) (pdf_core : PDFViewerCore) :
  exists h : Z,
    snd (fst (display_page ext pdf_core)) = set_page_height h pdf_core.
Proof.
  unfold display_page, get_page_pixmap.
  assert (Hsame : pdf_core = set_page_height (page_height pdf_core) pdf_core)
    by (destruct pdf_core; reflexivity).
  destruct (pdf_document pdf_core) as [doc|];
    [|exists (page_height pdf_core); exact Hsame].
  destruct (negb (truthy doc));
    [exists (page_height pdf_core); exact Hsame|].
  destruct ((0 <=? current_page_num pdf_core - 1) &&
            (current_page_num pdf_core - 1 <? total_pages pdf_core));
    [|exists (page_height pdf_core); exact Hsame].
  destruct (render (core_ext ext) doc (current_page_num pdf_core - 1)
                   (zoom_level pdf_core)) as [pixmap|e]; cbn [bind].
  - exists (height (core_ext ext) pixmap).
    destruct (pixmap_truthy ext pixmap); reflexivity.
  - exists (page_height pdf_core); exact Hsame.
Qed.

Lemma update_page_display_height (ext : External) (pdf_core : PDFViewerCore) :
  exists h : Z,
    snd (fst (update_page_display ext pdf_core)) = set_page_height h pdf_core.
Proof.
  unfold update_page_display.
  destruct (info_has_document (get_document_info pdf_core) &&
            (0 <? info_total_pages (get_document_info pdf_core))).
  - destruct (display_page_height ext pdf_core) as [h Hh]. exists h.
    unfold and_then, returns.
    destruct (display_page ext pdf_core) as [[calls core'] raised].
    exact Hh.
  - exists (page_height pdf_core). destruct pdf_core; reflexivity.
Qed.


(** With a document that has a page, the display starts by writing the
    current page into the page field. *)
Lemma update_page_display_first (ext : External) (pdf_core : PDFViewerCore)
    (doc : Document) :
  is_open pdf_core doc -> 0 < total_pages pdf_core ->
  hd_error (fst (fst (update_page_display ext pdf_core))) =
    Some (page_input_setText ext (str_of_int (current_page_num pdf_core))).
Proof.
  intros [Hdoc Htot] Hpos. unfold update_page_display, get_document_info.
  cbn [info_has_document info_total_pages info_current_page].
  rewrite Hdoc. apply Z.ltb_lt in Hpos. rewrite Hpos. cbn [andb].
  unfold and_then, returns.
  destruct (display_page ext pdf_core) as [[calls core'] raised].
  reflexivity.
Qed.

(** X9. Scrolling at the ends: at the top of page 1 [scroll_up], and at the
    bottom of the last page [scroll_down], make no Qt call, show no notice
    and leave the core as it is. *)
Theorem scroll_stops_at_ends (ext : External) (pdf_core : PDFViewerCore)
    (doc : Document) (current_scroll max_scroll : Z) :
  is_open pdf_core doc -> 1 <= total_pages pdf_core ->
  (current_page_num pdf_core = 1 -> current_scroll <= 0 ->
   scroll_up ext pdf_core current_scroll = returns ext [] pdf_core) /\
  (current_page_num pdf_core = total_pages pdf_core ->
   max_scroll <= current_scroll ->
   scroll_down ext pdf_core current_scroll max_scroll =
     returns ext [] pdf_core).
Proof.
  intros Hopen Htot.
  pose proof (Navigation.open_truthy pdf_core doc Hopen ltac:(lia)) as Ht.
  split; intros Hpage Hscroll.
  - unfold scroll_up. rewrite Ht. cbn [negb].
    apply Z.leb_le in Hscroll. rewrite Hscroll.
    rewrite (Walks.prev_page_at_start pdf_core doc Hopen Hpage Htot).
    reflexivity.
  - unfold scroll_down. rewrite Ht. cbn [negb].
    apply Z.leb_le in Hscroll. rewrite Hscroll.
    rewrite (Navigation.next_page_at_end pdf_core doc Hopen ltac:(lia) Hpage).
    reflexivity.
Qed.

Lemma scroll_stops_at_ends_witness :
  scroll_up sample_ext Lifecycle.middle_of_three 0 <>
    returns sample_ext [] Lifecycle.middle_of_three /\
  (scroll_up sample_ext two_pages 0 = returns sample_ext [] two_pages) /\
  (scroll_down sample_ext Lifecycle.last_of_three 640 640 =
     returns sample_ext [] Lifecycle.last_of_three).
Proof.
  split; [discriminate|].
  split.
  - apply (scroll_stops_at_ends sample_ext two_pages (mkDocument 2) 0 0);
      [split; reflexivity | cbn; lia | reflexivity | lia].
  - apply (scroll_stops_at_ends sample_ext Lifecycle.last_of_three
             (mkDocument 3) 640 640);
      [split; reflexivity | cbn; lia | reflexivity | lia].
Defined.

(** X10. Scrolling inside a page never touches the core and asks the scroll bar
    for exactly one new value: going up, a value below the current one, not
    negative and at most one threshold away; going down, a value above the
    current one, at most the maximum and at most one threshold away. *)
Theorem scroll_within_page (ext : External) (pdf_core : PDFViewerCore)
    (current_scroll max_scroll : Z) :
  has_truthy_document pdf_core = true ->
  0 < scroll_threshold pdf_core ->
  (0 < current_scroll ->
   exists value : Z,
     scroll_up ext pdf_core current_scroll =
       returns ext [scrollbar_setValue ext value] pdf_core /\
     0 <= value < current_scroll /\
     current_scroll - scroll_threshold pdf_core <= value) /\
  (current_scroll < max_scroll ->
   exists value : Z,
     scroll_down ext pdf_core current_scroll max_scroll =
       returns ext [scrollbar_setValue ext value] pdf_core /\
     current_scroll < value <= max_scroll /\
     value <= current_scroll + scroll_threshold pdf_core).
Proof.
  intros Ht Hth. split; intros Hs.
  - exists (Z.max 0 (current_scroll - scroll_threshold pdf_core)).
    unfold scroll_up. rewrite Ht. cbn [negb].
    replace (current_scroll <=? 0) with false by (symmetry; apply Z.leb_gt; lia).
    split; [reflexivity | lia].
  - exists (Z.min max_scroll (current_scroll + scroll_threshold pdf_core)).
    unfold scroll_down. rewrite Ht. cbn [negb].
    replace (max_scroll <=? current_scroll) with false
      by (symmetry; apply Z.leb_gt; lia).
    split; [reflexivity | lia].
Qed.

Lemma scroll_within_page_witness :
  (exists value : Z,
     scroll_up sample_ext two_pages 30 =
       returns sample_ext [scrollbar_setValue sample_ext value] two_pages /\
     0 <= value < 30 /\ 30 - 100 <= value) /\
  (exists value : Z,
     scroll_down sample_ext two_pages 30 640 =
       returns sample_ext [scrollbar_setValue sample_ext value] two_pages /\
     30 < value <= 640 /\ value <= 30 + 100).
Proof.
  destruct (scroll_within_page sample_ext two_pages 30 640) as [Hup Hdown];
    [reflexivity | reflexivity |].
  split; [apply Hup; lia | apply Hdown; lia].
Defined.

(** X11. Scrolling past the edge of a page that has a neighbour turns the page:
    [scroll_down] at the bottom moves the core to the next page and
    [scroll_up] at the top to the previous one, whether or not the renderer
    then raises; the first Qt call writes the new page number into the page
    field, and when the method returns its last call puts the scroll bar at
    the top of the next page, or at the bottom of the previous one. *)
Theorem scroll_turns_page (ext : External) (pdf_core : PDFViewerCore)
    (doc : Document) (current_scroll max_scroll : Z) :
  is_open pdf_core doc ->
  (1 <= current_page_num pdf_core < total_pages pdf_core ->
   max_scroll <= current_scroll ->
   let '((calls, pdf_core'), raised) :=
     scroll_down ext pdf_core current_scroll max_scroll in
   current_page_num pdf_core' = current_page_num pdf_core + 1 /\
   hd_error calls =
     Some (page_input_setText ext
             (str_of_int (current_page_num pdf_core + 1))) /\
   (raised = None ->
    last calls (event_accept ext) = scrollbar_setValue ext 0)) /\
  (1 < current_page_num pdf_core <= total_pages pdf_core ->
   current_scroll <= 0 ->
   let '((calls, pdf_core'), raised) :=
     scroll_up ext pdf_core current_scroll in
   current_page_num pdf_core' = current_page_num pdf_core - 1 /\
   hd_error calls =
     Some (page_input_setText ext
             (str_of_int (current_page_num pdf_core - 1))) /\
   (raised = None ->
    last calls (event_accept ext) = scrollbar_setValue_maximum ext)).
Proof.
  intros Hopen.
  assert (Hturn : forall (n : Z) (final : Gui ext),
    1 <= n <= total_pages pdf_core ->
    let moved :=
      mkCore (pdf_document pdf_core) (current_pdf_path pdf_core) n
             (total_pages pdf_core) (zoom_level pdf_core) 0
             (page_height pdf_core) (scroll_threshold pdf_core) in
    let '((calls, pdf_core'), raised) :=
      and_then ext (update_page_display ext moved) (returns ext [final]) in
    current_page_num pdf_core' = n /\
    hd_error calls = Some (page_input_setText ext (str_of_int n)) /\
    (raised = None -> last calls (event_accept ext) = final)).
  { intros n final Hn moved.
    assert (Hmoved : is_open moved doc) by (destruct Hopen; split; assumption).
    pose proof (update_page_display_first ext moved doc Hmoved ltac:(cbn; lia))
      as Hfirst.
    destruct (update_page_display_height ext moved) as [h Hh].
    unfold and_then, returns.
    destruct (update_page_display ext moved) as [[calls core'] [e|]];
      cbn [fst snd] in *.
    - subst core'. split; [reflexivity|]. split; [exact Hfirst|].
      discriminate.
    - subst core'. split; [reflexivity|].
      split.
      + destruct calls; [discriminate Hfirst | exact Hfirst].
      + intros _. apply last_last. }
  split; intros Hpage Hscroll.
  - unfold scroll_down.
    rewrite (Navigation.open_truthy pdf_core doc Hopen) by lia. cbn [negb].
    apply Z.leb_le in Hscroll. rewrite Hscroll.
    rewrite (Navigation.next_page_advances pdf_core doc Hopen Hpage).
    apply Hturn. lia.
  - unfold scroll_up.
    rewrite (Navigation.open_truthy pdf_core doc Hopen) by lia. cbn [negb].
    apply Z.leb_le in Hscroll. rewrite Hscroll.
    rewrite (Walks.prev_page_retreats pdf_core doc Hopen Hpage).
    apply Hturn. lia.
Qed.

Lemma scroll_turns_page_witness :
  scroll_down sample_ext Lifecycle.middle_of_three 640 640 =
    (([page_input_setText sample_ext "3"%string;
       total_pages_label_setText sample_ext "of 3"%string;
       pdf_content_label_setPixmap sample_ext 800;
       scrollbar_setValue sample_ext 0;
       scrollbar_setValue sample_ext 0],
      set_page_height 800 Lifecycle.last_of_three), None) /\
  (let '((calls, pdf_core'), raised) :=
     scroll_down sample_ext Lifecycle.middle_of_three 640 640 in
   current_page_num pdf_core' = 3 /\
   hd_error calls = Some (page_input_setText sample_ext "3"%string) /\
   (raised = None ->
    last calls (event_accept sample_ext) = scrollbar_setValue sample_ext 0)).
Proof.
  split; [reflexivity|].
  apply (scroll_turns_page sample_ext Lifecycle.middle_of_three
           (mkDocument 3) 640 640);
    [split; reflexivity | cbn; lia | lia].
Defined.

(** X12. Text that is no number, or a number outside [1, total_pages], leaves
    the core as it is: [go_to_page_from_input] shows one warning and writes
    the current page back into the page field. *)
Theorem page_input_rejects (ext : External) (pdf_core : PDFViewerCore)
    (text : string) :
  (forall n : Z, int_of_text ext text = Some n ->
                 n < 1 \/ total_pages pdf_core < n) ->
  exists (title : string) (message : option string),
    go_to_page_from_input ext pdf_core text =
      returns ext
        [QMessageBox ext warning title message;
         page_input_setText ext (str_of_int (current_page_num pdf_core))]
        pdf_core.
Proof.
  intros Hbad. unfold go_to_page_from_input.
  destruct (int_of_text ext text) as [n|]; [|eexists; eexists; reflexivity].
  specialize (Hbad n eq_refl). unfold go_to_page.
  destruct (has_truthy_document pdf_core && (0 <? total_pages pdf_core));
    [|eexists; eexists; reflexivity].
  replace ((1 <=? n) && (n <=? total_pages pdf_core)) with false.
  - eexists; eexists; reflexivity.
  - symmetry. apply andb_false_iff.
    destruct Hbad; [left; apply Z.leb_gt | right; apply Z.leb_gt]; lia.
Qed.

Lemma page_input_rejects_witness :
  int_of_text sample_ext "7"%string = Some 7 /\
  exists (title : string) (message : option string),
    go_to_page_from_input sample_ext two_pages "7"%string =
      returns sample_ext
        [QMessageBox sample_ext warning title message;
         page_input_setText sample_ext "1"%string]
        two_pages.
Proof.
  split; [reflexivity|].
  apply (page_input_rejects sample_ext two_pages "7"%string).
  intros n Hn. injection Hn as <-. right. cbn. lia.
Defined.

(** X13. With no document, or with one that has no page, the buttons and the
    page field answer "No PDF document loaded.", scrolling is silent, and
    none of them changes the core. *)
Theorem nothing_open (ext : External) (pdf_core : PDFViewerCore)
    (text : string) (page_num current_scroll max_scroll : Z) :
  has_truthy_document pdf_core = false ->
  int_of_text ext text = Some page_num ->
  let notice := Some "No PDF document loaded."%string in
  next_page ext pdf_core =
    returns ext [QMessageBox ext information "Navigation"%string notice]
            pdf_core /\
  prev_page ext pdf_core =
    returns ext [QMessageBox ext information "Navigation"%string notice]
            pdf_core /\
  go_to_page_from_input ext pdf_core text =
    returns ext
      [QMessageBox ext warning "Invalid Page"%string notice;
       page_input_setText ext (str_of_int (current_page_num pdf_core))]
      pdf_core /\
  scroll_up ext pdf_core current_scroll = returns ext [] pdf_core /\
  scroll_down ext pdf_core current_scroll max_scroll = returns ext [] pdf_core.
Proof.
  intros Hno Hint notice.
  unfold next_page, prev_page, go_to_page_from_input, scroll_up, scroll_down,
    Core.next_page, Core.prev_page, go_to_page.
  rewrite Hint, Hno. cbn [andb negb]. repeat split.
Qed.

Lemma nothing_open_witness :
  let notice := Some "No PDF document loaded."%string in
  next_page sample_ext init =
    returns sample_ext
      [QMessageBox sample_ext information "Navigation"%string notice] init /\
  prev_page sample_ext init =
    returns sample_ext
      [QMessageBox sample_ext information "Navigation"%string notice] init /\
  go_to_page_from_input sample_ext init "7"%string =
    returns sample_ext
      [QMessageBox sample_ext warning "Invalid Page"%string notice;
       page_input_setText sample_ext "0"%string]
      init /\
  scroll_up sample_ext init 0 = returns sample_ext [] init /\
  scroll_down sample_ext init 0 0 = returns sample_ext [] init.
Proof.
  apply (nothing_open sample_ext init "7"%string 7 0 0); reflexivity.
Defined.

(** X14. The buttons at the ends: on the last page [next_page], and on the first
    page [prev_page], show the core's notice and change nothing. *)
Theorem buttons_at_ends (ext : External) (pdf_core : PDFViewerCore)
    (doc : Document) :
  is_open pdf_core doc -> 1 <= total_pages pdf_core ->
  (current_page_num pdf_core = total_pages pdf_core ->
   next_page ext pdf_core =
     returns ext
       [QMessageBox ext information "Navigation"%string
          (Some "You are already on the last page."%string)]
       pdf_core) /\
  (current_page_num pdf_core = 1 ->
   prev_page ext pdf_core =
     returns ext
       [QMessageBox ext information "Navigation"%string
          (Some "You are already on the first page."%string)]
       pdf_core).
Proof.
  intros Hopen Htot. split; intros Hpage.
  - unfold next_page.
    rewrite (Navigation.next_page_at_end pdf_core doc Hopen ltac:(lia) Hpage).
    reflexivity.
  - unfold prev_page.
    rewrite (Walks.prev_page_at_start pdf_core doc Hopen Hpage Htot).
    reflexivity.
Qed.

Lemma buttons_at_ends_witness :
  next_page sample_ext Lifecycle.last_of_three =
    returns sample_ext
      [QMessageBox sample_ext information "Navigation"%string
         (Some "You are already on the last page."%string)]
      Lifecycle.last_of_three /\
  prev_page sample_ext two_pages =
    returns sample_ext
      [QMessageBox sample_ext information "Navigation"%string
         (Some "You are already on the first page."%string)]
      two_pages.
Proof.
  split.
  - apply (buttons_at_ends sample_ext Lifecycle.last_of_three (mkDocument 3));
      [split; reflexivity | cbn; lia | reflexivity].
  - apply (buttons_at_ends sample_ext two_pages (mkDocument 2));
      [split; reflexivity | cbn; lia | reflexivity].
Defined.

(** X15. A file that does not open: [open_pdf_file] shows one error box and
    refreshes nothing, although the core has dropped its document and gone
    back to zoom 1.0; the empty display appears with the next refresh, for
    instance after [zoom_in]. *)
Theorem failed_open_stale (ext : External) (pdf_core : PDFViewerCore)
    (file_path : string) (e : exn) :
  file_path <> ""%string ->
  fitz_open (core_ext ext) file_path = Raise e ->
  let '((calls, pdf_core'), raised) := open_pdf_file ext pdf_core file_path in
  calls =
    [QMessageBox ext critical "Error Loading PDF"%string
       (Some ("Could not load PDF: " ++ str_of_exn e)%string)] /\
  raised = None /\
  pdf_core' = reset_pdf_state pdf_core /\
  fst (zoom_in ext pdf_core') =
    ([page_input_setText ext "0"%string;
      total_pages_label_setText ext "of 0"%string;
      pdf_content_label_setText ext "Please open a PDF file."%string],
     set_zoom_level (Py.min (fadd f1_0 f0_1) f3_0) (reset_pdf_state pdf_core)).
Proof.
  intros Hpath Hopen. unfold open_pdf_file, truthy_str, load_pdf.
  replace (String.eqb file_path "") with false
    by (symmetry; apply String.eqb_neq; exact Hpath).
  cbn [negb]. rewrite Hopen. unfold returns.
  repeat split.
Qed.

Lemma failed_open_stale_witness :
  let '((calls, pdf_core'), raised) :=
    open_pdf_file closed_ext two_pages "x.pdf"%string in
  calls =
    [QMessageBox closed_ext critical "Error Loading PDF"%string
       (Some "Could not load PDF: no such file"%string)] /\
  raised = None /\
  pdf_core' = reset_pdf_state two_pages /\
  fst (zoom_in closed_ext pdf_core') =
    ([page_input_setText closed_ext "0"%string;
      total_pages_label_setText closed_ext "of 0"%string;
      pdf_content_label_setText closed_ext "Please open a PDF file."%string],
     set_zoom_level (Py.min (fadd f1_0 f0_1) f3_0) (reset_pdf_state two_pages)).
Proof.
  apply (failed_open_stale closed_ext two_pages "x.pdf"%string
           (Exception "no such file"%string));
    [discriminate | reflexivity].
Defined.

(** An exception of the display is one of the renderer. *)
Lemma display_page_raised (ext : External) (pdf_core : PDFViewerCore)
    (e : exn) :
  snd (display_page ext pdf_core) = Some e ->
  exists (doc : Document) (n : Z) (z : float),
    render (core_ext ext) doc n z = Raise e.
Proof.
  unfold display_page, get_page_pixmap.
  destruct (pdf_document pdf_core) as [doc|]; [|discriminate].
  destruct (negb (truthy doc)); [discriminate|].
  destruct ((0 <=? current_page_num pdf_core - 1) &&
            (current_page_num pdf_core - 1 <? total_pages pdf_core));
    [|discriminate].
  destruct (render (core_ext ext) doc (current_page_num pdf_core - 1)
                   (zoom_level pdf_core)) as [pixmap|e'] eqn:Hr; cbn [bind].
  - destruct (pixmap_truthy ext pixmap); discriminate.
  - cbn [snd]. intros H. injection H as <-. eauto.
Qed.

Lemma update_page_display_raised (ext : External) (pdf_core : PDFViewerCore)
    (e : exn) :
  snd (update_page_display ext pdf_core) = Some e ->
  exists (doc : Document) (n : Z) (z : float),
    render (core_ext ext) doc n z = Raise e.
Proof.
  unfold update_page_display.
  destruct (info_has_document (get_document_info pdf_core) &&
            (0 <? info_total_pages (get_document_info pdf_core)));
    [|discriminate].
  unfold and_then, returns.
  pose proof (display_page_raised ext pdf_core e) as H.
  destruct (display_page ext pdf_core) as [[calls core'] raised].
  exact H.
Qed.

(** A zoom made by the core and shown by the display: what the outcome
    keeps of the core the zoom produced. *)
Lemma shown (ext : External) (zoomed : PDFViewerCore) :
  let '((calls, pdf_core'), raised) := update_page_display ext zoomed in
  (pdf_document pdf_core' = pdf_document zoomed /\
   current_page_num pdf_core' = current_page_num zoomed /\
   total_pages pdf_core' = total_pages zoomed /\
   zoom_level pdf_core' = zoom_level zoomed) /\
  ((forall (doc : Document) (n : Z) (z : float),
      exists pixmap, render (core_ext ext) doc n z = Ok pixmap) ->
   raised = None).
Proof.
  destruct (update_page_display_height ext zoomed) as [h Hh].
  pose proof (update_page_display_raised ext zoomed) as Hr.
  destruct (update_page_display ext zoomed) as [[calls core'] raised].
  cbn [fst snd] in *. subst core'. split; [repeat split|].
  intros Hrender. destruct raised as [e|]; [|reflexivity].
  destruct (Hr e eq_refl) as (doc & n & z & Hraise).
  destruct (Hrender doc n z) as [pixmap Hok]. congruence.
Qed.

(** X16. Ctrl with the wheel: the core keeps its document and its page, the
    zoom stays in [0.5, 3.0], and it does not go down when the wheel turns
    up nor up when the wheel turns down or not at all; this holds also when
    the renderer raises. *)
Theorem ctrl_wheel_zooms (ext : External) (pdf_core : PDFViewerCore)
    (delta_y current_scroll max_scroll : Z) :
  let z := zoom_level pdf_core in
  valid z = true -> fle f0_5 z = true -> fle z f3_0 = true ->
  let '((calls, pdf_core'), raised) :=
    wheelEvent ext pdf_core true delta_y current_scroll max_scroll in
  let z' := zoom_level pdf_core' in
  pdf_document pdf_core' = pdf_document pdf_core /\
  current_page_num pdf_core' = current_page_num pdf_core /\
  total_pages pdf_core' = total_pages pdf_core /\
  fle f0_5 z' = true /\ fle z' f3_0 = true /\
  (if 0 <? delta_y then fle z z' else fle z' z) = true.
Proof.
  intros z Hv Hlo Hhi.
  assert (Hz : zoomable z) by (apply zoomable_bounds; auto).
  unfold wheelEvent, zoom_in, zoom_out, Core.zoom_in, Core.zoom_out.
  destruct (0 <? delta_y).
  - set (zoomed := set_zoom_level (Py.min (fadd (zoom_level pdf_core) f0_1) f3_0)
                                  pdf_core).
    pose proof (shown ext zoomed) as Hs.
    unfold and_then, returns.
    destruct (update_page_display ext zoomed) as [[calls core'] raised].
    destruct Hs as [(Hd & Hp & Ht & Hzl) _].
    assert (Hq : zoomable (zoom_level zoomed))
      by (apply min_zoomable, fadd_at_least_half; [exact Hz | reflexivity..]).
    apply zoomable_bounds in Hq as (_ & Hqlo & Hqhi).
    pose proof (Limits.zoom_in_not_lower pdf_core f0_1 Hv Hlo Hhi
                  eq_refl eq_refl) as Hdir.
    destruct raised; cbn zeta; rewrite Hd, Hp, Ht, Hzl;
      repeat split; assumption.
  - set (zoomed := set_zoom_level (Py.max (fsub (zoom_level pdf_core) f0_1) f0_5)
                                  pdf_core).
    pose proof (shown ext zoomed) as Hs.
    unfold and_then, returns.
    destruct (update_page_display ext zoomed) as [[calls core'] raised].
    destruct Hs as [(Hd & Hp & Ht & Hzl) _].
    assert (Hq : zoomable (zoom_level zoomed))
      by (apply max_zoomable, fsub_at_most_three; [exact Hz | reflexivity..]).
    apply zoomable_bounds in Hq as (_ & Hqlo & Hqhi).
    pose proof (Limits.zoom_out_not_higher pdf_core f0_1 Hv Hlo Hhi
                  eq_refl eq_refl) as Hdir.
    destruct raised; cbn zeta; rewrite Hd, Hp, Ht, Hzl;
      repeat split; assumption.
Qed.

Lemma ctrl_wheel_zooms_witness :
  let '((calls, pdf_core'), raised) :=
    wheelEvent sample_ext two_pages true 120 0 640 in
  let z' := zoom_level pdf_core' in
  pdf_document pdf_core' = pdf_document two_pages /\
  current_page_num pdf_core' = current_page_num two_pages /\
  total_pages pdf_core' = total_pages two_pages /\
  fle f0_5 z' = true /\ fle z' f3_0 = true /\
  fle (zoom_level two_pages) z' = true.
Proof.
  apply (ctrl_wheel_zooms sample_ext two_pages 120 0 640); reflexivity.
Defined.






(** X18. A pinch that begins with both fingers on one spot records the
    distance zero and makes no call on the parent viewer; from then on
    every touch event with two points whose distance can be computed raises
    [ZeroDivisionError], a [TouchEnd] too, and leaves the widget and the
    parent viewer as they were: no such event ends the pinch. *)
Theorem coincident_start_breaks_pinch (wext : Widget.External)
    (parent : Widget.ParentViewer)
    (self : Widget.PDFContentWidget) (v : Widget.viewer parent)
    (ty1 : Widget.EventType) (p1 p2 : Widget.TouchPoint) (d : float) :
  Widget.initial_distance self = None ->
  ty1 = Widget.TouchBegin \/ ty1 = Widget.TouchUpdate ->
  Widget.distance wext p1 p2 = Ok d -> is_zero d = true ->
  exists self1 : Widget.PDFContentWidget,
    Widget.event wext parent self v (Widget.mkEvent ty1 [p1; p2]) =
      ((self1, v), Ok true) /\
    forall (ty : Widget.EventType) (q1 q2 : Widget.TouchPoint) (d' : float)
           (w : Widget.viewer parent),
      ty <> Widget.OtherEvent ->
      Widget.distance wext q1 q2 = Ok d' ->
      Widget.event wext parent self1 w (Widget.mkEvent ty [q1; q2]) =
        ((self1, w), Raise ZeroDivisionError).
Proof.
  intros Hnone Hty Hd Hzero.
  exists (Widget.mkWidget (Widget.pinch_scale_factor self) f1_0 (Some d)).
  split.
  - unfold Widget.event, Widget.handle_touch_event, Widget.pinch_step.
    destruct Hty as [-> | ->]; cbn [Widget.type Widget.touchPoints];
      rewrite Hd, Hnone; reflexivity.
  - intros ty q1 q2 d' w Hty' Hd'.
    unfold Widget.event, Widget.handle_touch_event, Widget.pinch_step.
    cbn [Widget.type Widget.touchPoints Widget.initial_distance].
    unfold truediv.
    destruct ty; try congruence; rewrite Hd', Hzero; reflexivity.
Qed.

Lemma coincident_start_breaks_pinch_witness :
  exists self1 : Widget.PDFContentWidget,
    Widget.event Widget.sample_ext Widget.recorder Widget.init []
      (Widget.mkEvent Widget.TouchBegin [Widget.at_x 5; Widget.at_x 5]) =
      ((self1, []), Ok true) /\
    forall (ty : Widget.EventType) (q1 q2 : Widget.TouchPoint) (d' : float)
           (w : list Widget.Call),
      ty <> Widget.OtherEvent ->
      Widget.distance Widget.sample_ext q1 q2 = Ok d' ->
      Widget.event Widget.sample_ext Widget.recorder self1 w
        (Widget.mkEvent ty [q1; q2]) =
        ((self1, w), Raise ZeroDivisionError).
Proof.
  apply (coincident_start_breaks_pinch Widget.sample_ext Widget.recorder
           Widget.init [] Widget.TouchBegin (Widget.at_x 5) (Widget.at_x 5)
           f0);
    [reflexivity | left; reflexivity | vm_compute; reflexivity | reflexivity].
Defined.

(** X19. A file that opens: [open_pdf_file] puts the core on page 1 of the
    document.  When the document has a page the display starts with "1" in
    the page field and the page count in the label; when it has none the
    display is the empty one, with "0" in the page field although the core
    holds the document and counts page 1. *)
Theorem open_pdf_file_shows (ext : External) (pdf_core : PDFViewerCore)
    (file_path : string) (doc : Document) :
  file_path <> ""%string ->
  fitz_open (core_ext ext) file_path = Ok doc ->
  let '((calls, pdf_core'), raised) := open_pdf_file ext pdf_core file_path in
  pdf_document pdf_core' = Some doc /\
  current_page_num pdf_core' = 1 /\
  total_pages pdf_core' = Z.of_nat (page_count doc) /\
  zoom_level pdf_core' = zoom_level pdf_core /\
  (page_count doc <> O ->
   firstn 2 calls =
     [page_input_setText ext "1"%string;
      total_pages_label_setText ext
        ("of " ++ str_of_int (Z.of_nat (page_count doc)))%string]) /\
  (page_count doc = O ->
   raised = None /\
   calls =
     [page_input_setText ext "0"%string;
      total_pages_label_setText ext "of 0"%string;
      pdf_content_label_setText ext "Please open a PDF file."%string]).
Proof.
  intros Hpath Hopen. unfold open_pdf_file, truthy_str, load_pdf.
  replace (String.eqb file_path "") with false
    by (symmetry; apply String.eqb_neq; exact Hpath).
  cbn [negb]. rewrite Hopen.
  set (loaded := mkCore (Some doc) _ _ _ _ _ _ _).
  destruct (update_page_display_height ext loaded) as [h Hh].
  unfold update_page_display, get_document_info in *.
  cbn [info_has_document info_total_pages info_current_page pdf_document
       loaded total_pages current_page_num andb] in *.
  destruct (page_count doc) as [|k] eqn:Hk.
  - cbn [Z.of_nat Z.ltb Z.compare] in *. unfold returns.
    repeat split; try (intros; congruence).
  - replace (0 <? Z.of_nat (S k)) with true in *
      by (symmetry; apply Z.ltb_lt; lia).
    unfold and_then, returns in *.
    destruct (display_page ext loaded) as [[calls core'] raised].
    cbn [fst snd] in Hh. subst core'.
    repeat split; try (intros; discriminate).
Qed.

Lemma open_pdf_file_shows_witness :
  let '((calls, pdf_core'), raised) :=
    open_pdf_file sample_ext init "a.pdf"%string in
  pdf_document pdf_core' = Some (mkDocument 3) /\
  current_page_num pdf_core' = 1 /\
  total_pages pdf_core' = 3 /\
  zoom_level pdf_core' = f1_0 /\
  (3%nat <> O ->
   firstn 2 calls =
     [page_input_setText sample_ext "1"%string;
      total_pages_label_setText sample_ext "of 3"%string]) /\
  (3%nat = O ->
   raised = None /\
   calls =
     [page_input_setText sample_ext "0"%string;
      total_pages_label_setText sample_ext "of 0"%string;
      pdf_content_label_setText sample_ext "Please open a PDF file."%string]).
Proof.
  apply (open_pdf_file_shows sample_ext init "a.pdf"%string (mkDocument 3));
    [discriminate | reflexivity].
Defined.



End Viewer.
